(** * TorBox downloads command

    A shallow embedding of [src/search-downloads.tsx].

    The command lists the downloads of a remote service, merged from three
    collections, lets the user filter them by name and offers three actions
    per row.  The embedding follows the source function by function:

    - [formatBytes], [getTypeLabel], [getStatusTag]: the pure helpers;
    - [addType], [fetchAllDownloads]: the aggregation;
    - [DownloadListItem]: a row and its action handlers;
    - [filteredDownloads], [Command]: the view.

    JavaScript values are modelled as follows.  [string] is a Rocq string.
    A [number] that holds an identifier, a byte count or a time value is an
    integer of [Z]; the fraction [progress] is an IEEE 754 binary64 value
    ([float]), with its comparison and multiplication as the processor does
    them.  A promise is the result it settles with ([Settled]); the effects of
    the handlers (notifications, remote calls, clipboard) are events appended
    to a log carried by a small state-and-exception monad. *)

From Stdlib Require Import ZArith List String Ascii Bool Lia.
From Stdlib Require Import Permutation Sorted DecimalString DecimalZ.
From Stdlib Require Import PrimFloat FloatOps SpecFloat.
Import ListNotations.

Local Open Scope list_scope.
Local Open Scope string_scope.
Local Open Scope Z_scope.

Set Implicit Arguments.

(* ================================================================== *)
(** * Built-in operations of the language *)

Module JS.

(** ** Strings *)

(** [s.includes(t)]: [t] occurs in [s] as a contiguous substring. *)
Fixpoint includes (s t : string) : bool :=
  if String.prefix t s then true
  else match s with
       | EmptyString => false
       | String _ s' => includes s' t
       end.

(** Decimal digits of an integer, with a leading minus sign when negative. *)
Definition digits (z : Z) : string := NilZero.string_of_int (Z.to_int z).

(** ** Integer-valued numbers *)

(** The values [Math.round] can return: they are integers, or one of the
    three special values.  Negative zero is [Integer 0]; it prints as [0]. *)
Variant Integral : Type :=
| NaN
| Infinity (negative : bool)
| Integer (z : Z).

(** [Math.round(x)]: the integer closest to [x], a tie going towards
    positive infinity.  A finite binary64 value is [m * 2^e] exactly, so the
    result is computed without rounding error. *)
Definition Math_round (x : float) : Integral :=
  match Prim2SF x with
  | S754_nan => NaN
  | S754_infinity s => Infinity s
  | S754_zero _ => Integer 0
  | S754_finite s m e =>
      let n := if s then Z.neg m else Z.pos m in
      Integer (if 0 <=? e then n * 2 ^ e
               else (2 * n + 2 ^ (- e)) / 2 ^ (1 - e))
  end.

(** Does the decimal integer [c] read back as the binary64 value [a]?
    [a > 0] is an integer-valued double; [c] does when it lies within half a
    gap of [a], the ends included when the significand of [a] is even. *)
Definition reads_back (a c : Z) : bool :=
  let e := Z.log2 a - 52 in
  let m := a / 2 ^ e in
  let below := if m =? 2 ^ 52 then 2 ^ (e - 1) else 2 ^ e in
  if Z.even m
  then (2 * a - below <=? 2 * c) && (2 * c <=? 2 * a + 2 ^ e)
  else (2 * a - below <? 2 * c) && (2 * c <? 2 * a + 2 ^ e).

(** The shortest significand [s] of [k] digits such that [s * 10^(n-k)]
    reads back as [a], where [n] is the number of digits of [a]; among two
    candidates of one length, the closer to [a]. *)
Fixpoint shortest (fuel : nat) (a n k : Z) : Z :=
  match fuel with
  | O => a
  | S fuel' =>
      let d := 10 ^ (n - k) in
      let c0 := (a / d) * d in
      let c1 := c0 + d in
      let ok0 := reads_back a c0 in
      let ok1 := reads_back a c1 in
      if ok0 && (negb ok1 || (a - c0 <=? c1 - a)) then c0
      else if ok1 then c1
      else shortest fuel' a n (k + 1)
  end.

(** Removes the zeros at the end of a string of digits. *)
Fixpoint trim_zeros (s : string) : string :=
  match s with
  | EmptyString => EmptyString
  | String c s' =>
      match trim_zeros s' with
      | EmptyString =>
          if Ascii.eqb c "0" then EmptyString else String c EmptyString
      | t => String c t
      end
  end.

(** Exponential form of an integer-valued double [a >= 10^21]:
    [d.ddde+x] with as few digits as read back. *)
Definition exponential (a : Z) : string :=
  let n := Z.of_nat (String.length (digits a)) in
  let c := shortest 17 a n 1 in
  let x := Z.of_nat (String.length (digits c)) - 1 in
  match trim_zeros (digits c) with
  | EmptyString => "0"
  | String d EmptyString => String d EmptyString ++ "e+" ++ digits x
  | String d ds => String d ("." ++ ds) ++ "e+" ++ digits x
  end.

(** The text of an integer-valued number, as a template literal inserts
    it: the shortest digits that read back as the number, with zeros up to
    the units, below [10^21]; the exponential form from there on.  Up to
    [2^53] every integer is a number of its own and the digits are all
    its digits. *)
Definition Number_toString (v : Integral) : string :=
  match v with
  | NaN => "NaN"
  | Infinity false => "Infinity"
  | Infinity true => "-Infinity"
  | Integer z =>
      let a := Z.abs z in
      if a <? 2 ^ 53 then digits z
      else (if z <? 0 then "-" else "")
             ++ (if a <? 10 ^ 21
                 then digits
                        (shortest 17 a
                           (Z.of_nat (String.length (digits a))) 1)
                 else exponential a)
  end.

(** ** Two-decimal rendering of a quotient *)

(** [(num / den).toFixed(2)] for integers [num >= 0] and [den > 0], as a
    number of hundredths: the integer [n] with [n / 100] closest to the
    quotient, the larger one on a tie.  In [formatBytes] the divisor is a
    power of two, so the quotient is exact. *)
Definition toFixed_2 (num den : Z) : Z := (200 * num + den) / (2 * den).

(** [parseFloat] of the two-decimal text followed by the conversion of
    that number to a string: the zeros at the end of the fraction go, and
    the point with them when nothing is left ([150] hundredths is [1.5],
    [100] hundredths is [1]). *)
Definition parseFloat_toString (hundredths : Z) : string :=
  let whole := digits (hundredths / 100) in
  let cents := hundredths mod 100 in
  if cents =? 0 then whole
  else if cents mod 10 =? 0 then whole ++ "." ++ digits (cents / 10)
  else if cents <? 10 then whole ++ ".0" ++ digits cents
  else whole ++ "." ++ digits cents.

(** An element of an array converted to a string by [+]: an index past the
    end reads [undefined]. *)
Definition element_toString (a : list string) (i : Z) : string :=
  match nth_error a (Z.to_nat i) with
  | Some s => s
  | None => "undefined"
  end.

(** ** Thrown values and promises *)

(** What a [catch] clause or a rejected promise receives: an [Error] object
    with its message, or a value that is not an [Error]. *)
Variant Thrown : Type :=
| Error (message : string)
| NotAnError.

(** A promise, seen from an [await]: the outcome it settles with. *)
Variant Settled (A : Type) : Type :=
| Fulfilled (a : A)
| Rejected (reason : Thrown).

Arguments Fulfilled {A} a.
Arguments Rejected {A} reason.

(** [Promise.all] of three promises: the three results when all fulfil, a
    rejection as soon as one rejects.  Which reason wins when several reject
    depends on the time each takes; the model reports the first in array
    order. *)
Definition Promise_all {A B C : Type}
    (a : Settled A) (b : Settled B) (c : Settled C) : Settled (A * B * C) :=
  match a, b, c with
  | Fulfilled x, Fulfilled y, Fulfilled z => Fulfilled (x, y, z)
  | Rejected e, _, _ => Rejected e
  | _, Rejected e, _ => Rejected e
  | _, _, Rejected e => Rejected e
  end.

(** ** Sorting *)

Section Sort.

Variable A : Type.

(** The comparison function returns a number; [None] stands for [NaN]. *)
Variable comparefn : A -> A -> option Z.

(** The language's [SortCompare]: a [NaN] from the comparison function
    counts as zero. *)
Definition SortCompare (x y : A) : Z :=
  match comparefn x y with
  | Some v => v
  | None => 0
  end.

(** [order < 0] for [order = SortCompare x y], the one test the engine
    makes on the result of a comparison: [x] has to stand before [y]. *)
Definition before (x y : A) : bool := SortCompare x y <? 0.

(** The loop of [CountAndMakeRun].  The run goes on while the current
    element stands to the previous one as the second element stood to the
    first: before it in a descending run ([order < 0]), not before it
    otherwise ([order >= 0]).  The result is the rest of the run and what
    follows it. *)
Fixpoint run_tail (descending : bool) (previous : A) (l : list A)
    : list A * list A :=
  match l with
  | [] => ([], [])
  | current :: l' =>
      if Bool.eqb (before current previous) descending
      then let (run, rest) := run_tail descending current l' in
           (current :: run, rest)
      else ([], l)
  end.

(** [CountAndMakeRun]: the longest run the array starts with, which is
    descending when the second element has to stand before the first and
    is then reversed, and the elements after it. *)
Definition CountAndMakeRun (l : list A) : list A * list A :=
  match l with
  | first :: second :: l' =>
      let descending := before second first in
      let (run, rest) := run_tail descending second l' in
      (if descending then rev (first :: second :: run)
       else first :: second :: run,
       rest)
  | _ => (l, [])
  end.

(** The binary search of [BinaryInsertionSort] for the place of [pivot]
    in a sorted segment: the pivot is compared with the element in the
    middle of the segment ([mid = left + ((right - left) >> 1)]) and the
    search goes on in the part before it when the pivot has to stand before
    it ([right = mid]), in the part after it otherwise ([left = mid + 1]).
    The result is the segment cut at the place found.  The segment is
    halved at each step: [fuel] is its length. *)
Fixpoint place (fuel : nat) (pivot : A) (segment : list A)
    : list A * list A :=
  match fuel with
  | O => ([], segment)
  | S fuel' =>
      let mid := Nat.div2 (List.length segment) in
      match skipn mid segment with
      | [] => ([], segment)
      | middle :: after =>
          if before pivot middle
          then let (front, back) := place fuel' pivot (firstn mid segment) in
               (front, (back ++ middle :: after)%list)
          else let (front, back) := place fuel' pivot after in
               ((firstn mid segment ++ middle :: front)%list, back)
      end
  end.

(** One step of [BinaryInsertionSort]: the pivot is put at its place in the
    sorted prefix. *)
Definition insert_binary (prefix : list A) (pivot : A) : list A :=
  let (front, back) := place (List.length prefix) pivot prefix in
  (front ++ pivot :: back)%list.

(** [BinaryInsertionSort]: the elements after the run are put into it one
    after the other. *)
Definition BinaryInsertionSort (run rest : list A) : list A :=
  fold_left insert_binary rest run.

(** [Array.prototype.sort] as the V8 engine, which runs the command, sorts
    an array of fewer than 64 elements: an array of fewer than two elements
    is returned as it is; otherwise the run the array starts with is
    extended to the whole array by binary insertion.  (A longer array the
    engine cuts into runs, which it extends in this way to a minimal length
    and merges; the model sorts every array as a short one.  With a
    comparison function that orders the elements by a key every stable
    algorithm returns the same list.) *)
Definition Array_sort (l : list A) : list A :=
  match l with
  | [] | [_] => l
  | _ => let (run, rest) := CountAndMakeRun l in BinaryInsertionSort run rest
  end.

End Sort.

End JS.

(* ================================================================== *)
(** * Data model *)

(** [DownloadType], declared in [./api]; its three members are the cases of
    the [switch] in [getTypeLabel]. *)
Variant DownloadType : Type := torrent | webdl | usenet.

Module BaseDownload.
Record t : Type := make {
  id : Z;
  name : string;
  size : Z;
  progress : float;
  download_state : string;
  download_present : bool;
  download_finished : bool;
  created_at : string;
  updated_at : string
}.
End BaseDownload.

Module Torrent.
(** [Torrent extends BaseDownload]. *)
Record t : Type := make {
  base : BaseDownload.t;
  hash : string;
  download_speed : Z
}.
End Torrent.

Module Download.
(** [Download extends BaseDownload] with [type].  The spread in [addType]
    copies every property of the record it tags, so a tagged torrent still
    carries its two own properties: [rest]. *)
Record t : Type := make {
  base : BaseDownload.t;
  rest : option (string * Z);
  type : DownloadType
}.
Definition id (d : t) : Z := BaseDownload.id (base d).
Definition name (d : t) : string := BaseDownload.name (base d).
Definition size (d : t) : Z := BaseDownload.size (base d).
Definition progress (d : t) : float := BaseDownload.progress (base d).
Definition download_finished (d : t) : bool :=
  BaseDownload.download_finished (base d).
Definition created_at (d : t) : string := BaseDownload.created_at (base d).
End Download.

(** The records [addType] accepts: [T extends BaseDownload]. *)
Class ExtendsBaseDownload (T : Type) : Type := {
  as_base : T -> BaseDownload.t;
  own_properties : T -> option (string * Z)
}.

#[export] Instance BaseDownload_extends
  : ExtendsBaseDownload BaseDownload.t := {
  as_base := fun d => d;
  own_properties := fun _ => None
}.

#[export] Instance Torrent_extends : ExtendsBaseDownload Torrent.t := {
  as_base := Torrent.base;
  own_properties := fun d => Some (Torrent.hash d, Torrent.download_speed d)
}.

(* ================================================================== *)
(** * Presentation helpers *)

Definition k : Z := 1024.
Definition sizes : list string := ["B"; "KB"; "MB"; "GB"; "TB"].

(** [Math.floor(Math.log(bytes) / Math.log(k))] for [bytes >= 1], with the
    logarithms taken exactly: the largest [i] with [k^i <= bytes]
    ([log_index_spec]).  The engine divides two rounded logarithms; its
    index can be one more than this one for a count just below a power of
    [k], where the quotient rounds to the whole number: so it is for the
    three counts below [1024^5].  The statements about counts below
    [1024^5] stop four bytes short of it. *)
Definition log_index (bytes : Z) : Z := Z.log2 bytes / Z.log2 k.

(** [formatBytes] on an integer count of bytes.  A negative count has no
    logarithm: every number derived from it is [NaN] and the unit read at
    index [NaN] is [undefined]. *)
Definition formatBytes (bytes : Z) : string :=
  if bytes =? 0 then "0 B"
  else if bytes <? 0 then "NaN undefined"
  else
    let i := log_index bytes in
    JS.parseFloat_toString (JS.toFixed_2 bytes (k ^ i))
      ++ " " ++ JS.element_toString sizes i.

Definition getTypeLabel (type : DownloadType) : string :=
  match type with
  | torrent => "Torrent"
  | webdl => "Web"
  | usenet => "Usenet"
  end.

Definition addType {T : Type} `{ExtendsBaseDownload T}
    (downloads : list T) (type : DownloadType) : list Download.t :=
  map (fun d => Download.make (as_base d) (own_properties d) type) downloads.

Variant Color : Type := Green | Orange.

Record Tag : Type := { value : string; color : Color }.

Definition getStatusTag (download : Download.t) : Tag :=
  if Download.download_finished download
     || (1 <=? Download.progress download)%float
  then {| value := "Ready"; color := Green |}
  else {| value :=
            JS.Number_toString
              (JS.Math_round (Download.progress download * 100)%float)
              ++ "%";
          color := Orange |}.

(* ================================================================== *)
(** * The remote service *)

(** The functions of [./api] the command calls, as the outcomes their
    promises settle with.  [fetchDownloads] is generic in the record type it
    returns; it is used at [Torrent] and at [BaseDownload] (of which
    [WebDownload] and [UsenetDownload] are two names). *)
Module Api.
Record t : Type := make {
  fetchDownloads_Torrent : string -> string -> JS.Settled (list Torrent.t);
  fetchDownloads_BaseDownload :
    string -> string -> JS.Settled (list BaseDownload.t);
  getDownloadLink : string -> DownloadType -> Z -> JS.Settled string;
  deleteDownload : string -> DownloadType -> Z -> JS.Settled unit
}.
End Api.

(* ================================================================== *)
(** * Aggregation *)

Section Aggregation.

(** [new Date(s).getTime()]: the time value of a date string in
    milliseconds, [None] ([NaN]) when the string is not a date. *)
Variable Date_getTime : string -> option Z.

Variable api : Api.t.

(** The comparison function given to [sort]:
    [new Date(b.created_at).getTime() - new Date(a.created_at).getTime()].
    Time values are integers below [2^53], so the sign of the difference of
    two of them is the sign of the exact difference. *)
Definition by_created_at (a b : Download.t) : option Z :=
  match Date_getTime (Download.created_at b),
        Date_getTime (Download.created_at a) with
  | Some tb, Some ta => Some (tb - ta)
  | _, _ => None
  end.

(** The array the three tagged collections are spread into. *)
Definition allDownloads (torrents : list Torrent.t)
    (webDownloads usenetDownloads : list BaseDownload.t) : list Download.t :=
  (addType torrents torrent
     ++ addType webDownloads webdl
     ++ addType usenetDownloads usenet)%list.

Definition fetchAllDownloads (apiKey : string) : JS.Settled (list Download.t) :=
  match JS.Promise_all
          (Api.fetchDownloads_Torrent api apiKey "torrents")
          (Api.fetchDownloads_BaseDownload api apiKey "webdl")
          (Api.fetchDownloads_BaseDownload api apiKey "usenet") with
  | JS.Rejected e => JS.Rejected e
  | JS.Fulfilled (torrents, webDownloads, usenetDownloads) =>
      JS.Fulfilled
        (JS.Array_sort by_created_at
           (allDownloads torrents webDownloads usenetDownloads))
  end.

End Aggregation.

(* ================================================================== *)
(** * Effects of the handlers *)

Variant ToastStyle : Type := Animated | Success | Failure.

(** What a handler does to the outside, in the order it does it. *)
Variant Event : Type :=
| Toast (style : ToastStyle) (title : string) (message : option string)
| LinkRequest (apiKey : string) (type : DownloadType) (id : Z)
| DeleteRequest (apiKey : string) (type : DownloadType) (id : Z)
| ClipboardWrite (text : string)
| RefreshCall.

(** The world a handler runs in: the events so far and the state the view
    holds (the fetched list, the loading flag, the error), which a handler
    reaches through the [onRefresh] callback only. *)
Record World (View : Type) : Type := {
  log : list Event;
  view : View
}.

(** An asynchronous computation: from a world to the outcome it settles with
    and the world it leaves. *)
Definition M (View A : Type) : Type := World View -> JS.Settled A * World View.

Section Monad.

Variable View : Type.

Definition ret {A : Type} (a : A) : M View A := fun w => (JS.Fulfilled a, w).

Definition bind {A B : Type} (c : M View A) (f : A -> M View B) : M View B :=
  fun w =>
    match c w with
    | (JS.Fulfilled a, w') => f a w'
    | (JS.Rejected e, w') => (JS.Rejected e, w')
    end.

(** [try { body } catch (error) { handler }]. *)
Definition try_catch {A : Type} (body : M View A)
    (handler : JS.Thrown -> M View A) : M View A :=
  fun w =>
    match body w with
    | (JS.Fulfilled a, w') => (JS.Fulfilled a, w')
    | (JS.Rejected e, w') => handler e w'
    end.

Definition emit (e : Event) : M View unit :=
  fun w => (JS.Fulfilled tt, {| log := (log w ++ [e])%list; view := view w |}).

(** [await p] after the request [e] has gone out. *)
Definition request {A : Type} (e : Event) (p : JS.Settled A) : M View A :=
  fun w => (p, {| log := (log w ++ [e])%list; view := view w |}).

(** [showToast] and [Clipboard.copy] of the host are taken to succeed. *)
Definition showToast (style : ToastStyle) (title : string)
    (message : option string) : M View unit :=
  emit (Toast style title message).

Definition Clipboard_copy (text : string) : M View unit :=
  emit (ClipboardWrite text).

(** A call of the [onRefresh] callback, which returns nothing and is taken
    not to throw: the call is logged and the callback acts on the view. *)
Definition call_onRefresh (onRefresh : View -> View) : M View unit :=
  fun w => (JS.Fulfilled tt,
            {| log := (log w ++ [RefreshCall])%list;
               view := onRefresh (view w) |}).

End Monad.

Arguments ret {View A} a.
Arguments bind {View A B} c f.
Arguments try_catch {View A} body handler.
Arguments showToast {View} style title message.
Arguments Clipboard_copy {View} text.
Arguments request {View A} e p.
Arguments call_onRefresh {View} onRefresh.

Notation "x <- c ;; k" := (bind c (fun x => k))
  (at level 61, c at next level, right associativity).
Notation "c ;; k" := (bind c (fun _ => k))
  (at level 61, right associativity).

(** [error instanceof Error ? error.message : "Unknown error"]. *)
Definition message_or_unknown (error : JS.Thrown) : string :=
  match error with
  | JS.Error message => message
  | JS.NotAnError => "Unknown error"
  end.

(** [error.message]: absent on a value that is not an [Error]. *)
Definition message_of (error : JS.Thrown) : option string :=
  match error with
  | JS.Error message => Some message
  | JS.NotAnError => None
  end.

(* ================================================================== *)
(** * A row of the list *)

Module Action.
Record t (View : Type) : Type := make {
  title : string;
  destructive : bool;
  shortcut : option (string * string);
  onAction : M View unit
}.
End Action.

Module ListItem.
Record t (View : Type) : Type := make {
  title : string;
  subtitle : string;
  accessories : list Tag;
  actions : list (list (Action.t View))
}.
End ListItem.

(** The separator of the subtitle, as the bytes of the source file give
    it: the four bytes C3 82 C2 B7. *)
Definition middle_dot : string :=
  String (ascii_of_nat 195) (String (ascii_of_nat 130)
    (String (ascii_of_nat 194) (String (ascii_of_nat 183) EmptyString))).

Section DownloadListItem.

Variable View : Type.
Variable api : Api.t.

(** The function given to [onAction] of "Copy Download Link". *)
Definition onAction_CopyDownloadLink (download : Download.t) (apiKey : string)
    : M View unit :=
  try_catch
    (showToast Animated "Getting download link..." None ;;
     link <- request
               (LinkRequest apiKey
                  (Download.type download) (Download.id download))
               (Api.getDownloadLink api apiKey
                  (Download.type download) (Download.id download)) ;;
     Clipboard_copy link ;;
     showToast Success "Download link copied!" None)
    (fun error =>
       showToast Failure "Failed to get download link"
         (Some (message_or_unknown error))).

(** The function given to [onAction] of "Delete Download". *)
Definition onAction_DeleteDownload (download : Download.t) (apiKey : string)
    (onRefresh : View -> View) : M View unit :=
  try_catch
    (showToast Animated "Deleting download..." None ;;
     request
       (DeleteRequest apiKey (Download.type download) (Download.id download))
       (Api.deleteDownload api apiKey
          (Download.type download) (Download.id download)) ;;
     showToast Success "Download deleted" None ;;
     call_onRefresh onRefresh)
    (fun error =>
       showToast Failure "Failed to delete download"
         (Some (message_or_unknown error))).

(** The row of one download.  [isReady && <Action .../>] renders the action
    when [isReady] holds and nothing otherwise. *)
Definition DownloadListItem (download : Download.t) (apiKey : string)
    (onRefresh : View -> View) : ListItem.t View :=
  let statusTag := getStatusTag download in
  let isReady :=
    Download.download_finished download
      || (1 <=? Download.progress download)%float in
  {| ListItem.title := Download.name download;
     ListItem.subtitle :=
       formatBytes (Download.size download) ++ " " ++ middle_dot ++ " "
         ++ getTypeLabel (Download.type download);
     ListItem.accessories :=
       [ {| value := value statusTag; color := color statusTag |} ];
     ListItem.actions :=
       [ (if isReady
          then [ Action.make "Copy Download Link" false None
                   (onAction_CopyDownloadLink download apiKey) ]
          else []);
         [ Action.make "Refresh All Downloads" false (Some ("cmd", "r"))
             (call_onRefresh onRefresh);
           Action.make "Delete Download" true (Some ("ctrl", "x"))
             (onAction_DeleteDownload download apiKey onRefresh) ] ] |}.

End DownloadListItem.

(* ================================================================== *)
(** * The command *)

(** What [useCachedPromise] hands to the component. *)
Module AsyncState.
Record t : Type := make {
  data : option (list Download.t);
  isLoading : bool;
  error : option JS.Thrown
}.
End AsyncState.

Module ListView.
Record t (View : Type) : Type := make {
  isLoading : bool;
  searchBarPlaceholder : string;
  throttle : bool;
  section_title : string;
  section_subtitle : string;
  children : list (string * ListItem.t View)
}.
End ListView.

Definition DownloadType_toString (type : DownloadType) : string :=
  match type with
  | torrent => "torrent"
  | webdl => "webdl"
  | usenet => "usenet"
  end.

Section Command.

Variable View : Type.
Variable api : Api.t.

(** [String.prototype.toLowerCase]. *)
Variable toLowerCase : string -> string.

(** The memoised list the section shows. *)
Definition filteredDownloads (data : option (list Download.t))
    (searchText : string) : list Download.t :=
  match data with
  | None => []
  | Some data =>
      if Nat.eqb (String.length searchText) 0 then data
      else
        let searchLower := toLowerCase searchText in
        filter
          (fun download =>
             JS.includes (toLowerCase (Download.name download)) searchLower)
          data
  end.

(** One rendering of the component, given the API key of the preferences,
    the search text it holds, and what the fetch hook returned: the state
    and the [revalidate] function. *)
Definition Command (apiKey searchText : string) (state : AsyncState.t)
    (revalidate : View -> View) : M View (ListView.t View) :=
  let filteredDownloads :=
    filteredDownloads (AsyncState.data state) searchText in
  match AsyncState.error state with
  | Some error =>
      showToast Failure "Failed to fetch downloads" (message_of error)
  | None => ret tt
  end ;;
  ret {| ListView.isLoading := AsyncState.isLoading state;
         ListView.searchBarPlaceholder := "Search your TorBox downloads...";
         ListView.throttle := true;
         ListView.section_title :=
           if Nat.eqb (String.length searchText) 0
           then "All Downloads" else "Search Results";
         ListView.section_subtitle :=
           JS.Number_toString
             (JS.Integer (Z.of_nat (List.length filteredDownloads)));
         ListView.children :=
           map (fun download =>
                  (DownloadType_toString (Download.type download) ++ "-"
                     ++ JS.Number_toString (JS.Integer (Download.id download)),
                   DownloadListItem api download apiKey revalidate))
               filteredDownloads |}.

End Command.

(* ================================================================== *)
(** * The fetch hook *)

(** Modelled from the spec: the state transitions of the fetch hook
    [useCachedPromise], called with [keepPreviousData], whose code belongs to
    a library and is not among the sources.  Section 4.5 of the
    specification: on mount the fetch starts with nothing held and the
    loading flag set; a refresh sets the flag and keeps what is held; a
    fetch that succeeds stores its list and clears the error; one that fails
    sets the error and keeps the list held before. *)
Module CachedPromise.

Definition mount : AsyncState.t :=
  {| AsyncState.data := None;
     AsyncState.isLoading := true;
     AsyncState.error := None |}.

Definition revalidate (s : AsyncState.t) : AsyncState.t :=
  {| AsyncState.data := AsyncState.data s;
     AsyncState.isLoading := true;
     AsyncState.error := AsyncState.error s |}.

Definition settle (s : AsyncState.t)
    (outcome : JS.Settled (list Download.t)) : AsyncState.t :=
  match outcome with
  | JS.Fulfilled items =>
      {| AsyncState.data := Some items;
         AsyncState.isLoading := false;
         AsyncState.error := None |}
  | JS.Rejected e =>
      {| AsyncState.data := AsyncState.data s;
         AsyncState.isLoading := false;
         AsyncState.error := Some e |}
  end.

End CachedPromise.

(* ================================================================== *)
(** * Vocabulary of the statements *)

(** The titles of the actions a row offers, section after section. *)
Definition action_titles {View : Type} (item : ListItem.t View) : list string :=
  map (@Action.title View) (List.concat (ListItem.actions item)).

(** [l] is [l'] with some elements left out. *)
Inductive Subsequence {A : Type} : list A -> list A -> Prop :=
| Subsequence_nil : Subsequence [] []
| Subsequence_take (x : A) (l l' : list A) :
    Subsequence l l' -> Subsequence (x :: l) (x :: l')
| Subsequence_skip (x : A) (l l' : list A) :
    Subsequence l l' -> Subsequence l (x :: l').

(** [x] may stand before [y]: it does not compare greater. *)
Definition precedes {A : Type} (comparefn : A -> A -> option Z)
    (x y : A) : Prop :=
  JS.SortCompare comparefn x y <= 0.

(** [x] may stand before [y] by its key. *)
Definition key_le {A : Type} (key : A -> Z) (x y : A) : Prop :=
  key x <= key y.

(** The order along a run: strictly falling keys in a descending run, keys
    that do not fall otherwise. *)
Definition key_chain {A : Type} (key : A -> Z) (descending : bool)
    (x y : A) : Prop :=
  if descending then key y < key x else key x <= key y.

(** The tagged records in the order of the kinds: the torrents, the web
    downloads, the usenet downloads. *)
Definition in_kind_order (ts : list Torrent.t) (ws us : list BaseDownload.t)
    : list Download.t :=
  (map (fun t => Download.make (Torrent.base t)
                   (Some (Torrent.hash t, Torrent.download_speed t)) torrent)
     ts
   ++ map (fun b => Download.make b None webdl) ws
   ++ map (fun b => Download.make b None usenet) us)%list.

(** [r] is [x] rounded as [Math.round] is specified: a number that is not
    finite, or is zero, is returned as it is; otherwise [r] is the integer
    [n] with [n - 1/2 <= x < n + 1/2], the closest one, the upper one of two
    as close.  The finite [x] is [v * 2^e]. *)
Definition rounds (x : float) (r : JS.Integral) : Prop :=
  match Prim2SF x with
  | S754_nan => r = JS.NaN
  | S754_infinity s => r = JS.Infinity s
  | S754_zero _ => r = JS.Integer 0
  | S754_finite s m e =>
      let v := if s then Z.neg m else Z.pos m in
      exists n,
        r = JS.Integer n
        /\ (2 * n - 1) * 2 ^ Z.max 0 (- e) <= 2 * v * 2 ^ Z.max 0 e
        /\ 2 * v * 2 ^ Z.max 0 e < (2 * n + 1) * 2 ^ Z.max 0 (- e)
  end.

(** The event is a request for a download link. *)
Definition is_link_request (e : Event) : bool :=
  match e with
  | LinkRequest _ _ _ => true
  | _ => false
  end.

(** The events an action adds to the log when it is run in the world
    [w]. *)
Definition emitted {View : Type} (a : Action.t View) (w : World View)
    : list Event :=
  skipn (List.length (log w)) (log (snd (Action.onAction a w))).

(** The elements of [l] whose key is [t], in their order. *)
Definition key_class {A K : Type} (key : A -> K) (eqb : K -> K -> bool)
    (t : K) (l : list A) : list A :=
  filter (fun x => eqb (key x) t) l.

Definition time_eqb (s t : option Z) : bool :=
  match s, t with
  | Some a, Some b => a =? b
  | None, None => true
  | _, _ => false
  end.

Section Dates.

Variable Date_getTime : string -> option Z.

(** The download has a date the engine can read. *)
Definition dated (d : Download.t) : Prop :=
  Date_getTime (Download.created_at d) <> None.

(** The downloads whose time value is [t]; [None] selects the undated. *)
Definition same_time (t : option Z) (d : Download.t) : bool :=
  time_eqb (Date_getTime (Download.created_at d)) t.

(** The key the comparison orders dated downloads by: the more recent the
    download, the smaller the key. *)
Definition recency (d : Download.t) : Z :=
  match Date_getTime (Download.created_at d) with
  | Some t => - t
  | None => 0
  end.

End Dates.

(** The pair that identifies a download: an id is unique within its type
    only. *)
Definition identity (d : Download.t) : DownloadType * Z :=
  (Download.type d, Download.id d).

(** The event is a request to the remote service. *)
Definition is_request (e : Event) : bool :=
  match e with
  | LinkRequest _ _ _ | DeleteRequest _ _ _ => true
  | _ => false
  end.

(** A request, if the event is one, is made with the key [apiKey] and names
    the download [d]. *)
Definition concerns (apiKey : string) (d : Download.t) (e : Event) : Prop :=
  match e with
  | LinkRequest key type id | DeleteRequest key type id =>
      key = apiKey /\ type = Download.type d /\ id = Download.id d
  | _ => True
  end.

(** Reads the decimal digits of an integer back. *)
Definition read_digits (s : string) : option Z :=
  option_map Z.of_int (NilZero.int_of_string s).

(** The key of the row of a download, as [Command] writes it:
    the type, a hyphen and the id. *)
Definition row_key (d : Download.t) : string :=
  DownloadType_toString (Download.type d) ++ "-"
    ++ JS.Number_toString (JS.Integer (Download.id d)).

(* ================================================================== *)
(** * Sample data *)

#[local] Set Warnings "-inexact-float".

(** A lower-casing of the letters A to Z, one instance of [toLowerCase]. *)
Definition ascii_lower (c : ascii) : ascii :=
  let n := nat_of_ascii c in
  if ((65 <=? n) && (n <=? 90))%nat then ascii_of_nat (n + 32) else c.

Fixpoint ascii_toLowerCase (s : string) : string :=
  match s with
  | EmptyString => EmptyString
  | String c s' => String (ascii_lower c) (ascii_toLowerCase s')
  end.

(** The time values of a few date strings; any other string is not a date
    here. *)
Definition sample_getTime (s : string) : option Z :=
  if String.eqb s "2024-01-01" then Some 1704067200000
  else if String.eqb s "2024-01-02" then Some 1704153600000
  else if String.eqb s "2024-01-03" then Some 1704240000000
  else None.

Definition sample_base (id : Z) (name : string) (size : Z) (progress : float)
    (finished : bool) (created_at : string) : BaseDownload.t :=
  BaseDownload.make id name size progress
    (if finished then "completed" else "downloading") finished finished
    created_at created_at.

Definition ubuntu : Torrent.t :=
  Torrent.make (sample_base 1 "Ubuntu 24.04 ISO" 1048576 1 false "2024-01-02")
    "c0ffee" 0.

Definition debian : Torrent.t :=
  Torrent.make (sample_base 2 "debian-12.iso" 1536 0.5 false "2024-01-01")
    "decade" 2048.

Definition undated : Torrent.t :=
  Torrent.make (sample_base 3 "notes.txt" 12 0.25 false "")
    "facade" 0.

Definition fedora : Torrent.t :=
  Torrent.make (sample_base 4 "Fedora 40" 2251799813685248 1 true "2024-01-03")
    "beaded" 0.

Definition manual : BaseDownload.t :=
  sample_base 1 "Ubuntu manual.pdf" 1023 0.375 false "2024-01-03".

Definition archive : BaseDownload.t :=
  sample_base 7 "archive.nzb" 0 0 false "2024-01-02".

Definition arch : Torrent.t :=
  Torrent.make (sample_base 5 "archlinux.iso" 2048 0.75 false "2024-01-03")
    "accede" 0.

Definition guide : BaseDownload.t :=
  sample_base 5 "guide.pdf" 4096 0.5 false "2024-01-02".

Definition sample_api (torrents : JS.Settled (list Torrent.t))
    (web usenet : JS.Settled (list BaseDownload.t))
    (link : JS.Settled string) (deleted : JS.Settled unit) : Api.t :=
  Api.make
    (fun _ _ => torrents)
    (fun _ collection => if String.eqb collection "webdl" then web else usenet)
    (fun _ _ _ => link)
    (fun _ _ _ => deleted).

Definition tag_torrent (d : Torrent.t) : Download.t :=
  Download.make (Torrent.base d)
    (Some (Torrent.hash d, Torrent.download_speed d)) torrent.

Definition tagged_ubuntu : Download.t := tag_torrent ubuntu.
Definition tagged_debian : Download.t := tag_torrent debian.
Definition tagged_undated : Download.t := tag_torrent undated.
Definition tagged_fedora : Download.t := tag_torrent fedora.
Definition tagged_arch : Download.t := tag_torrent arch.
Definition tagged_guide : Download.t := Download.make guide None webdl.
Definition tagged_manual : Download.t := Download.make manual None webdl.
Definition tagged_archive : Download.t := Download.make archive None usenet.

(** A service whose three collections hold dated downloads... *)
Definition sample_service : Api.t :=
  sample_api (JS.Fulfilled [debian; ubuntu]) (JS.Fulfilled [manual])
    (JS.Fulfilled [archive])
    (JS.Fulfilled "https://example.org/file") (JS.Fulfilled tt).

Definition sample_result : list Download.t :=
  [tagged_manual; tagged_ubuntu; tagged_archive; tagged_debian].

(** ... one with an undated torrent between two dated ones... *)
Definition undated_service : Api.t :=
  sample_api (JS.Fulfilled [debian; undated; fedora]) (JS.Fulfilled [])
    (JS.Fulfilled [])
    (JS.Fulfilled "https://example.org/file") (JS.Fulfilled tt).

(** ... and one that refuses the key. *)
Definition failing_service : Api.t :=
  sample_api (JS.Fulfilled [debian; ubuntu])
    (JS.Rejected (JS.Error "401 Unauthorized")) (JS.Fulfilled [archive])
    (JS.Rejected (JS.Error "401 Unauthorized"))
    (JS.Rejected (JS.Error "401 Unauthorized")).

Definition scenario_service : Api.t :=
  sample_api
    (JS.Fulfilled
       [Torrent.make (sample_base 1 "one" 10 1 false "2024-01-02") "abc" 0])
    (JS.Fulfilled [sample_base 2 "two" 10 0.4 false "2024-01-03"])
    (JS.Fulfilled [])
    (JS.Fulfilled "https://example.org/file") (JS.Fulfilled tt).

Definition scenario_torrent : Download.t :=
  Download.make (sample_base 1 "one" 10 1 false "2024-01-02")
    (Some ("abc", 0)) torrent.

Definition scenario_web : Download.t :=
  Download.make (sample_base 2 "two" 10 0.4 false "2024-01-03") None webdl.

(** A service whose downloads all carry the date of 2 January. *)
Definition tie_service : Api.t :=
  sample_api (JS.Fulfilled [ubuntu]) (JS.Fulfilled [])
    (JS.Fulfilled [archive])
    (JS.Fulfilled "https://example.org/file") (JS.Fulfilled tt).

(** A service with an undated torrent in front of a web download and a
    usenet download that both carry the date of 2 January. *)
Definition mixed_service : Api.t :=
  sample_api (JS.Fulfilled [fedora; arch; debian; undated])
    (JS.Fulfilled [guide; manual]) (JS.Fulfilled [archive])
    (JS.Fulfilled "https://example.org/file") (JS.Fulfilled tt).

(* ================================================================== *)
(** * Strings *)

Lemma prefix_app (t s : string) :
  String.prefix t s = true <-> exists b, s = t ++ b.
Proof.
  revert s. induction t as [|c t IH]; intros s; simpl.
  - split; [intros _; now exists s | intros _; now destruct s].
  - destruct s as [|c' s].
    + split; [discriminate | intros [b Hb]; discriminate].
    + simpl. destruct (Ascii.ascii_dec c c') as [->|Hne].
      * rewrite IH. split; intros [b Hb]; exists b.
        -- now rewrite Hb.
        -- now injection Hb.
      * split; [discriminate | intros [b Hb]; injection Hb; congruence].
Qed.

Lemma includes_unfold (s t : string) :
  JS.includes s t =
  if String.prefix t s then true
  else match s with
       | EmptyString => false
       | String _ s' => JS.includes s' t
       end.
Proof. destruct s; reflexivity. Qed.

(** [includes] is the substring test. *)
Lemma includes_spec (s t : string) :
  JS.includes s t = true <-> exists a b, s = a ++ t ++ b.
Proof.
  induction s as [|c s IH]; rewrite includes_unfold.
  - destruct (String.prefix t "") eqn:Hp.
    + apply prefix_app in Hp. destruct Hp as [b Hb].
      split; [intros _; exists "", b; exact Hb | reflexivity].
    + split; [discriminate|].
      intros (a & b & Hab). destruct a; simpl in Hab.
      * assert (String.prefix t "" = true) by (apply prefix_app; now exists b).
        congruence.
      * discriminate.
  - destruct (String.prefix t (String c s)) eqn:Hp.
    + apply prefix_app in Hp. destruct Hp as [b Hb].
      split; [intros _; exists "", b; exact Hb | reflexivity].
    + rewrite IH. split.
      * intros (a & b & Hab). exists (String c a), b. simpl. now rewrite Hab.
      * intros (a & b & Hab). destruct a as [|c' a]; simpl in Hab.
        -- assert (String.prefix t (String c s) = true)
             by (apply prefix_app; now exists b).
           congruence.
        -- injection Hab as _ Hab. now exists a, b.
Qed.

Lemma includes_empty (s : string) : JS.includes s "" = true.
Proof. destruct s; reflexivity. Qed.

Lemma length_zero (s : string) : Nat.eqb (String.length s) 0 = true <-> s = "".
Proof. destruct s; simpl; split; congruence. Qed.

(** No text that ends in a percent sign is the text [Ready]. *)
Lemma percent_not_Ready (s : string) : s ++ "%" <> "Ready".
Proof.
  do 5 (destruct s as [|? s]; simpl; [discriminate|];
        intros H; injection H as _ H; revert H).
  destruct s; discriminate.
Qed.

(* ================================================================== *)
(** * Sorting *)

Lemma strongly_sorted_app {A : Type} (R : A -> A -> Prop) (l1 l2 : list A) :
  StronglySorted R (l1 ++ l2) <->
  StronglySorted R l1 /\ StronglySorted R l2
  /\ (forall x y, In x l1 -> In y l2 -> R x y).
Proof.
  induction l1 as [|a l1 IH]; simpl.
  - split.
    + intros H. repeat split; auto; [constructor | intros ? ? []].
    + tauto.
  - split.
    + intros H. inversion H as [|? ? Hs Ha]; subst.
      apply IH in Hs. destruct Hs as (H1 & H2 & H12).
      rewrite Forall_app in Ha. destruct Ha as [Ha1 Ha2].
      repeat split; auto.
      * now constructor.
      * intros x y [<-|Hx] Hy; [|now apply H12].
        rewrite Forall_forall in Ha2. now apply Ha2.
    + intros (H1 & H2 & H12). inversion H1 as [|? ? Hs Ha]; subst.
      constructor.
      * apply IH. repeat split; auto.
      * apply Forall_app. split; [exact Ha|].
        apply Forall_forall. intros y Hy. apply H12; auto.
Qed.

Lemma strongly_sorted_rev {A : Type} (R : A -> A -> Prop) (l : list A) :
  StronglySorted R l -> StronglySorted (fun x y => R y x) (rev l).
Proof.
  induction 1 as [|a l Hs IH Ha]; simpl; [constructor|].
  apply strongly_sorted_app. repeat split; auto.
  - repeat constructor.
  - intros x y Hx [<-|[]]. rewrite Forall_forall in Ha.
    apply Ha. now apply in_rev.
Qed.

Lemma strongly_sorted_weaken {A : Type} (R R' : A -> A -> Prop)
    (l : list A) :
  (forall x y, In x l -> In y l -> R x y -> R' x y) ->
  StronglySorted R l -> StronglySorted R' l.
Proof.
  intros Hw Hs. induction Hs as [|a l Hs IH Ha]; [constructor|].
  constructor.
  - apply IH. intros x y Hx Hy. apply Hw; now right.
  - rewrite Forall_forall in *. intros y Hy.
    apply Hw; simpl; auto.
Qed.

Section SortFacts.

Variable A : Type.
Variable comparefn : A -> A -> option Z.

Local Abbreviation before := (JS.before comparefn).
Local Abbreviation sort := (JS.Array_sort comparefn).

(** ** The result is a rearrangement *)

Lemma run_tail_app (descending : bool) (l : list A) :
  forall previous run rest,
    JS.run_tail comparefn descending previous l = (run, rest) ->
    (run ++ rest)%list = l.
Proof.
  induction l as [|c l IH]; intros p run rest H; simpl in H.
  - now injection H as <- <-.
  - destruct (Bool.eqb (before c p) descending).
    + destruct (JS.run_tail comparefn descending c l) as [run' rest'] eqn:E.
      injection H as <- <-. simpl. f_equal. now apply (IH c).
    + now injection H as <- <-.
Qed.

Lemma CountAndMakeRun_perm (l run rest : list A) :
  JS.CountAndMakeRun comparefn l = (run, rest) ->
  Permutation (run ++ rest) l.
Proof.
  unfold JS.CountAndMakeRun.
  destruct l as [|a [|b l]]; try (intros H; injection H as <- <-);
    try (rewrite app_nil_r; reflexivity).
  destruct (JS.run_tail comparefn (before b a) b l) as [run' rest'] eqn:E.
  intros H. injection H as <- <-.
  apply run_tail_app in E. subst l.
  destruct (before b a).
  - exact (Permutation_app_tail rest'
             (Permutation_sym (Permutation_rev (a :: b :: run')))).
  - reflexivity.
Qed.

Lemma place_app (fuel : nat) (pivot : A) :
  forall segment front back,
    JS.place comparefn fuel pivot segment = (front, back) ->
    (front ++ back)%list = segment.
Proof.
  induction fuel as [|fuel IH]; intros seg front back H; simpl in H.
  - now injection H as <- <-.
  - pose proof (firstn_skipn (Nat.div2 (List.length seg)) seg) as Hcut.
    destruct (skipn (Nat.div2 (List.length seg)) seg) as [|m after] eqn:Es.
    + now injection H as <- <-.
    + destruct (before pivot m).
      * destruct (JS.place comparefn fuel pivot
                    (firstn (Nat.div2 (List.length seg)) seg))
          as [f b] eqn:E.
        injection H as <- <-. apply IH in E.
        rewrite app_assoc, E. exact Hcut.
      * destruct (JS.place comparefn fuel pivot after) as [f b] eqn:E.
        injection H as <- <-. apply IH in E.
        rewrite <- app_assoc. simpl. rewrite E. exact Hcut.
Qed.

Lemma insert_binary_perm (prefix : list A) (pivot : A) :
  Permutation (JS.insert_binary comparefn prefix pivot) (pivot :: prefix).
Proof.
  unfold JS.insert_binary.
  destruct (JS.place comparefn (List.length prefix) pivot prefix)
    as [front back] eqn:E.
  apply place_app in E. subst prefix.
  symmetry. apply Permutation_middle.
Qed.

Lemma BinaryInsertionSort_perm (rest : list A) :
  forall run,
    Permutation (JS.BinaryInsertionSort comparefn run rest) (run ++ rest).
Proof.
  unfold JS.BinaryInsertionSort.
  induction rest as [|p rest IH]; intros run; simpl.
  - now rewrite app_nil_r.
  - rewrite IH, insert_binary_perm. simpl.
    apply Permutation_middle.
Qed.

Lemma sort_perm (l : list A) : Permutation (sort l) l.
Proof.
  unfold JS.Array_sort.
  destruct l as [|a [|b l]]; try reflexivity.
  destruct (JS.CountAndMakeRun comparefn (a :: b :: l)) as [run rest] eqn:E.
  rewrite BinaryInsertionSort_perm. now apply CountAndMakeRun_perm.
Qed.

(** ** The result for a comparison that orders by a key *)

(** On elements [P] where the comparison follows a key, [x] having to stand
    before [y] exactly when its key is smaller, the result is sorted by the
    key and each class of equal keys keeps its order. *)
Section Ordered.

Variable key : A -> Z.
Variable P : A -> Prop.

Hypothesis before_key :
  forall x y, P x -> P y -> before x y = (key x <? key y).

Local Abbreviation class t l := (key_class key Z.eqb t l).
Local Abbreviation le := (key_le key).

Lemma class_app (t : Z) (l1 l2 : list A) :
  class t (l1 ++ l2) = (class t l1 ++ class t l2)%list.
Proof. apply filter_app. Qed.

Lemma class_cons (t : Z) (x : A) (l : list A) :
  class t (x :: l) = if key x =? t then x :: class t l else class t l.
Proof. reflexivity. Qed.

Lemma class_none (t : Z) (l : list A) :
  Forall (fun x => key x <> t) l -> class t l = [].
Proof.
  induction 1 as [|x l Hx Hl IH]; [reflexivity|].
  rewrite class_cons.
  destruct (key x =? t) eqn:E; [apply Z.eqb_eq in E; contradiction | exact IH].
Qed.

Lemma class_strict_short (t : Z) (l : list A) :
  StronglySorted (fun x y => key y < key x) l ->
  (List.length (class t l) <= 1)%nat.
Proof.
  induction 1 as [|x l Hs IH Hx]; [simpl; lia|].
  rewrite class_cons.
  destruct (key x =? t) eqn:E; [|exact IH].
  apply Z.eqb_eq in E.
  rewrite (@class_none t l); [simpl; lia|].
  eapply Forall_impl; [|exact Hx]. simpl. intros y Hy. lia.
Qed.

Lemma class_rev_strict (t : Z) (l : list A) :
  StronglySorted (fun x y => key y < key x) l ->
  class t (rev l) = class t l.
Proof.
  intros Hs. pose proof (class_strict_short t Hs) as Hlen.
  unfold key_class in *. rewrite filter_rev.
  destruct (filter (fun x => key x =? t) l) as [|a [|b m]];
    simpl in *; try reflexivity; lia.
Qed.

(** The run is a chain in the order the first comparison found. *)
Local Abbreviation chain := (key_chain key).

Lemma chain_before (x y : A) :
  P x -> P y -> chain (before y x) x y.
Proof.
  intros Hx Hy. rewrite (before_key Hy Hx). unfold key_chain.
  destruct (key y <? key x) eqn:E;
    [apply Z.ltb_lt in E | apply Z.ltb_ge in E]; lia.
Qed.

Lemma run_tail_chain (descending : bool) (l : list A) :
  forall previous run rest,
    P previous -> Forall P l ->
    JS.run_tail comparefn descending previous l = (run, rest) ->
    Sorted (chain descending) (previous :: run).
Proof.
  induction l as [|c l IH]; intros p run rest Hp Hl H; simpl in H.
  - injection H as <- <-. repeat constructor.
  - inversion Hl as [|? ? Hc Hl']; subst.
    destruct (Bool.eqb (before c p) descending) eqn:Eb.
    + destruct (JS.run_tail comparefn descending c l) as [run' rest'] eqn:E.
      injection H as <- <-.
      constructor; [now apply (IH c run' rest')|].
      constructor. apply Bool.eqb_prop in Eb. rewrite <- Eb.
      now apply chain_before.
    + injection H as <- <-. repeat constructor.
Qed.

Lemma chain_transitive (descending : bool) :
  Relations_1.Transitive (chain descending).
Proof. intros x y z. unfold key_chain. destruct descending; lia. Qed.

Lemma CountAndMakeRun_sorted (l run rest : list A) :
  Forall P l ->
  JS.CountAndMakeRun comparefn l = (run, rest) ->
  StronglySorted le run
  /\ forall t, class t (run ++ rest) = class t l.
Proof.
  unfold JS.CountAndMakeRun. intros HP.
  destruct l as [|a [|b l]].
  - intros H. injection H as <- <-. split; [constructor | reflexivity].
  - intros H. injection H as <- <-.
    split; [repeat constructor | now rewrite app_nil_r].
  - destruct (JS.run_tail comparefn (before b a) b l) as [run' rest'] eqn:E.
    intros H. injection H as <- <-.
    inversion HP as [|? ? Ha HP']; subst.
    inversion HP' as [|? ? Hb HP'']; subst.
    pose proof (run_tail_app _ _ _ E) as Happ.
    assert (Hs : StronglySorted (chain (before b a)) (a :: b :: run')).
    { apply Sorted_StronglySorted; [apply chain_transitive|].
      constructor; [now apply (run_tail_chain _ Hb HP'' E)|].
      constructor. now apply chain_before. }
    destruct (before b a); unfold key_chain in Hs.
    + split.
      * apply strongly_sorted_rev in Hs.
        apply (strongly_sorted_weaken (R := fun x y => key x < key y));
          [|exact Hs].
        intros x y _ _. unfold key_le. lia.
      * intros t.
        change (class t (rev (a :: b :: run') ++ rest')
                = class t (a :: b :: l)).
        rewrite class_app, (class_rev_strict t Hs), <- class_app.
        rewrite <- Happ. reflexivity.
    + split; [exact Hs|].
      intros t. rewrite <- Happ. reflexivity.
Qed.

Lemma div2_lt (n : nat) : (0 < n -> Nat.div2 n < n)%nat.
Proof.
  intros Hn. rewrite Nat.div2_div. apply Nat.div_lt; lia.
Qed.

Lemma place_bounds (pivot : A) (fuel : nat) :
  forall segment front back,
    (List.length segment <= fuel)%nat ->
    P pivot -> Forall P segment -> StronglySorted le segment ->
    JS.place comparefn fuel pivot segment = (front, back) ->
    Forall (fun x => key x <= key pivot) front
    /\ Forall (fun x => key pivot < key x) back.
Proof.
  induction fuel as [|fuel IH]; intros seg front back Hlen Hp HP Hs H;
    simpl in H.
  - injection H as <- <-. destruct seg; [auto | simpl in Hlen; lia].
  - set (mid := Nat.div2 (List.length seg)) in *.
    pose proof (firstn_skipn mid seg) as Hcut.
    pose proof (length_skipn mid seg) as Hskip.
    destruct (skipn mid seg) as [|m after] eqn:Es.
    + injection H as <- <-.
      destruct seg as [|x seg]; [auto|]. exfalso.
      assert (Hd : (mid < List.length (x :: seg))%nat)
        by (apply div2_lt; simpl; lia).
      change (List.length (@nil A)) with 0%nat in Hskip. lia.
    + assert (Hm : (mid < List.length seg)%nat).
      { change (List.length (m :: after))
          with (S (List.length after)) in Hskip. lia. }
      rewrite <- Hcut in Hs, HP.
      apply strongly_sorted_app in Hs. destruct Hs as (Hs1 & Hs2 & Hcross).
      apply Forall_app in HP. destruct HP as [HP1 HP2].
      inversion HP2 as [|? ? Pm HPa]; subst.
      inversion Hs2 as [|? ? Hsa Hma]; subst.
      rewrite (before_key Hp Pm) in H.
      destruct (key pivot <? key m) eqn:Ek;
        [apply Z.ltb_lt in Ek | apply Z.ltb_ge in Ek].
      * destruct (JS.place comparefn fuel pivot (firstn mid seg))
          as [f b] eqn:E.
        injection H as <- <-.
        apply IH in E; auto; [|rewrite length_firstn; lia].
        destruct E as [Hf Hb]. split; [exact Hf|].
        apply Forall_app. split; [exact Hb|].
        constructor; [exact Ek|].
        eapply Forall_impl; [|exact Hma]. unfold key_le. simpl. intros; lia.
      * destruct (JS.place comparefn fuel pivot after) as [f b] eqn:E.
        injection H as <- <-.
        apply IH in E; auto;
          [|change (List.length (m :: after))
              with (S (List.length after)) in Hskip; lia].
        destruct E as [Hf Hb]. split; [|exact Hb].
        apply Forall_app. split.
        -- apply Forall_forall. intros x Hx.
           specialize (Hcross x m Hx (or_introl eq_refl)).
           unfold key_le in Hcross. lia.
        -- constructor; [exact Ek | exact Hf].
Qed.

Lemma insert_binary_sorted (prefix : list A) (pivot : A) :
  P pivot -> Forall P prefix -> StronglySorted le prefix ->
  StronglySorted le (JS.insert_binary comparefn prefix pivot)
  /\ forall t, class t (JS.insert_binary comparefn prefix pivot)
               = class t (prefix ++ [pivot]).
Proof.
  intros Hp HP Hs. unfold JS.insert_binary.
  destruct (JS.place comparefn (List.length prefix) pivot prefix)
    as [front back] eqn:E.
  pose proof (place_app _ _ _ E) as Happ.
  destruct (place_bounds (le_n _) Hp HP Hs E) as [Hf Hb].
  subst prefix.
  pose proof (proj1 (strongly_sorted_app _ _ _) Hs) as (Hs1 & Hs2 & Hcross).
  rewrite Forall_forall in Hf, Hb.
  split.
  - apply strongly_sorted_app. repeat split; [exact Hs1| |].
    + constructor; [exact Hs2|].
      apply Forall_forall. intros y Hy. specialize (Hb y Hy).
      unfold key_le. lia.
    + intros x y Hx [<-|Hy]; [apply (Hf x Hx) | now apply Hcross].
  - intros t. rewrite !class_app. rewrite <- app_assoc. f_equal.
    rewrite !class_cons.
    destruct (key pivot =? t) eqn:Et; [|now rewrite app_nil_r].
    apply Z.eqb_eq in Et.
    rewrite (@class_none t back); [reflexivity|].
    apply Forall_forall. intros y Hy. specialize (Hb y Hy). lia.
Qed.

Lemma BinaryInsertionSort_sorted (rest : list A) :
  forall run,
    Forall P run -> Forall P rest -> StronglySorted le run ->
    StronglySorted le (JS.BinaryInsertionSort comparefn run rest)
    /\ forall t, class t (JS.BinaryInsertionSort comparefn run rest)
                 = class t (run ++ rest).
Proof.
  unfold JS.BinaryInsertionSort.
  induction rest as [|p rest IH]; intros run Hrun Hrest Hs; simpl.
  - split; [exact Hs | now rewrite app_nil_r].
  - inversion Hrest as [|? ? Hp Hrest']; subst.
    destruct (insert_binary_sorted Hp Hrun Hs) as [Hs' Hc'].
    destruct (IH (JS.insert_binary comparefn run p)) as [Hs'' Hc''];
      auto.
    { apply (Permutation_Forall
               (Permutation_sym (insert_binary_perm run p))).
      now constructor. }
    split; [exact Hs''|].
    intros t. rewrite Hc''.
    change (run ++ p :: rest)%list with (run ++ [p] ++ rest)%list.
    rewrite !class_app, Hc', class_app, <- app_assoc. reflexivity.
Qed.

Lemma sort_by_key (l : list A) :
  Forall P l ->
  StronglySorted le (sort l) /\ forall t, class t (sort l) = class t l.
Proof.
  intros HP. unfold JS.Array_sort.
  destruct l as [|a [|b l]];
    [split; [constructor | reflexivity]
    |split; [repeat constructor | reflexivity]|].
  destruct (JS.CountAndMakeRun comparefn (a :: b :: l)) as [run rest] eqn:E.
  destruct (CountAndMakeRun_sorted HP E) as [Hs Hc].
  pose proof (Permutation_Forall
                (Permutation_sym (CountAndMakeRun_perm _ E)) HP) as HP'.
  apply Forall_app in HP'. destruct HP' as [HPr HPs].
  destruct (@BinaryInsertionSort_sorted rest run HPr HPs Hs) as [Hs' Hc'].
  split; [exact Hs'|]. intros t. now rewrite Hc', Hc.
Qed.

End Ordered.

End SortFacts.

Lemma filter_filter_weaker {A : Type} (p q : A -> bool) (l : list A) :
  (forall x, In x l -> p x = true -> q x = true) ->
  filter p (filter q l) = filter p l.
Proof.
  induction l as [|x l IH]; intros Hpq; simpl; [reflexivity|].
  assert (IH' : filter p (filter q l) = filter p l)
    by (apply IH; intros y Hy; apply Hpq; now right).
  destruct (q x) eqn:Hq; simpl.
  - now rewrite IH'.
  - destruct (p x) eqn:Hp; [|exact IH'].
    apply Hpq in Hp; [congruence | now left].
Qed.

(** In a sorted list the element at the smaller index precedes. *)
Lemma sorted_nth_error {A : Type} (R : A -> A -> Prop) (l : list A) :
  StronglySorted R l ->
  forall i j a b, (i < j)%nat ->
    nth_error l i = Some a -> nth_error l j = Some b -> R a b.
Proof.
  induction 1 as [|x l Hl IH Hx]; intros i j a b Hij Hi Hj.
  - destruct i; discriminate.
  - destruct j as [|j]; [lia|]. simpl in Hj.
    destruct i as [|i]; simpl in Hi.
    + injection Hi as <-. rewrite Forall_forall in Hx.
      apply Hx. eapply nth_error_In; eauto.
    + apply (IH i j); auto; lia.
Qed.

(** An element of a filtered list comes from the list, with the parts
    before and after it filtered. *)
Lemma filter_split {A : Type} (p : A -> bool) (l u v : list A) (x : A) :
  filter p l = (u ++ x :: v)%list ->
  exists l1 l2,
    l = (l1 ++ x :: l2)%list /\ filter p l1 = u /\ filter p l2 = v.
Proof.
  revert u. induction l as [|y l IH]; intros u H; simpl in H.
  - destruct u; discriminate.
  - destruct (p y) eqn:Hy.
    + destruct u as [|z u]; simpl in H; injection H as -> H.
      * exists [], l. simpl. now rewrite H.
      * destruct (IH u H) as (l1 & l2 & -> & H1 & H2).
        exists (z :: l1), l2. simpl. rewrite Hy, H1. auto.
    + destruct (IH u H) as (l1 & l2 & -> & H1 & H2).
      exists (y :: l1), l2. simpl. rewrite Hy. auto.
Qed.

(** Two lists with the same elements of a class have them in one order:
    if [a] stands before [b] in one, it does in the other. *)
Lemma filter_keeps_order {A : Type} (p : A -> bool) (l l' : list A) :
  filter p l' = filter p l ->
  forall l1 a l2 b l3,
    l = (l1 ++ a :: l2 ++ b :: l3)%list -> p a = true -> p b = true ->
    exists l1' l2' l3', l' = (l1' ++ a :: l2' ++ b :: l3')%list.
Proof.
  intros Hf l1 a l2 b l3 -> Ha Hb.
  rewrite filter_app in Hf. simpl in Hf. rewrite Ha in Hf.
  rewrite filter_app in Hf. simpl in Hf. rewrite Hb in Hf.
  destruct (@filter_split _ p l' _ _ _ Hf) as (l1' & r & -> & _ & Hr).
  destruct (@filter_split _ p r _ _ _ Hr) as (l2' & l3' & -> & _ & _).
  now exists l1', l2', l3'.
Qed.

(** A sorted list is determined by the order within each class of equal
    keys: two sorted lists that agree on every class are equal. *)
Section Determined.

Variables (A K : Type) (key : A -> K) (eqb : K -> K -> bool).
Variable R : A -> A -> Prop.

Hypothesis eqb_eq : forall s t, eqb s t = true <-> s = t.
Hypothesis R_antisym : forall x y, R x y -> R y x -> key x = key y.

Local Abbreviation class := (key_class key eqb).

Lemma class_head (x : A) (l : list A) :
  class (key x) (x :: l) = x :: class (key x) l.
Proof.
  unfold key_class. simpl. now rewrite (proj2 (eqb_eq (key x) (key x)) eq_refl).
Qed.

Lemma sorted_classes_eq (l1 l2 : list A) :
  StronglySorted R l1 -> StronglySorted R l2 ->
  (forall t, class t l1 = class t l2) -> l1 = l2.
Proof.
  intros H1. revert l2.
  induction H1 as [|a l1 H1 IH Ha]; intros l2 H2 Hc.
  - destruct l2 as [|b l2]; [reflexivity|].
    specialize (Hc (key b)). rewrite class_head in Hc. discriminate.
  - destruct H2 as [|b l2 H2 Hb].
    { specialize (Hc (key a)). rewrite class_head in Hc. discriminate. }
    assert (Hk : key a = key b).
    { assert (Ia : In a (b :: l2)).
      { apply (proj1 (filter_In (fun x => eqb (key x) (key a)) a (b :: l2))).
        fold (key_class key eqb (key a) (b :: l2)).
        rewrite <- Hc, class_head. now left. }
      assert (Ib : In b (a :: l1)).
      { apply (proj1 (filter_In (fun x => eqb (key x) (key b)) b (a :: l1))).
        fold (key_class key eqb (key b) (a :: l1)).
        rewrite Hc, class_head. now left. }
      rewrite Forall_forall in Ha, Hb.
      destruct Ia as [->|Ia]; [reflexivity|].
      destruct Ib as [->|Ib]; [reflexivity|].
      apply R_antisym; auto. }
    assert (Hab : a = b).
    { pose proof (Hc (key a)) as Hh.
      rewrite class_head in Hh. rewrite Hk in Hh at 2.
      rewrite class_head in Hh. now injection Hh. }
    subst b. f_equal. apply IH; auto.
    intros t. specialize (Hc t). unfold key_class in *. simpl in Hc.
    destruct (eqb (key a) t); [now injection Hc | exact Hc].
Qed.

End Determined.

(* ================================================================== *)
(** * Sizes *)

(** The index of the exact logarithm: the largest [i] with
    [k^i <= bytes]. *)
Lemma log_index_spec (bytes : Z) :
  1 <= bytes ->
  0 <= log_index bytes /\
  k ^ log_index bytes <= bytes < k ^ (log_index bytes + 1).
Proof.
  intros Hb. unfold log_index, k.
  change (Z.log2 1024) with 10. change 1024 with (2 ^ 10).
  pose proof (Z.log2_nonneg bytes) as Hn.
  pose proof (Z.log2_spec bytes ltac:(lia)) as [Hlo Hhi].
  assert (Hq : 0 <= Z.log2 bytes / 10) by (apply Z.div_pos; lia).
  pose proof (Z.mul_div_le (Z.log2 bytes) 10 ltac:(lia)) as Hle.
  pose proof (Z.mul_succ_div_gt (Z.log2 bytes) 10 ltac:(lia)) as Hgt.
  split; [exact Hq|].
  rewrite <- !Z.pow_mul_r by lia. split.
  - apply Z.le_trans with (2 ^ Z.log2 bytes); [|exact Hlo].
    apply Z.pow_le_mono_r; lia.
  - apply Z.lt_le_trans with (2 ^ Z.succ (Z.log2 bytes)); [exact Hhi|].
    apply Z.pow_le_mono_r; lia.
Qed.

(** Up to four bytes below [1024^5] the unit is one of the five. *)
Lemma formatBytes_unit (bytes : Z) :
  0 <= bytes <= k ^ 5 - 4 ->
  exists amount unit,
    formatBytes bytes = amount ++ " " ++ unit /\ In unit sizes.
Proof.
  intros [H0 H5]. unfold formatBytes.
  destruct (bytes =? 0) eqn:Hz.
  - exists "0", "B". split; [reflexivity | now left].
  - apply Z.eqb_neq in Hz.
    destruct (bytes <? 0) eqn:Hneg; [apply Z.ltb_lt in Hneg; lia|].
    destruct (log_index_spec (bytes := bytes)) as (Hi0 & Hlo & _); [lia|].
    assert (Hi5 : log_index bytes < 5).
    { destruct (Z_lt_le_dec (log_index bytes) 5) as [|Hge]; [assumption|].
      assert (k ^ 5 <= k ^ log_index bytes)
        by (apply Z.pow_le_mono_r; unfold k; lia).
      lia. }
    eexists; eexists. split; [reflexivity|].
    assert (Hcase : log_index bytes = 0 \/ log_index bytes = 1
                    \/ log_index bytes = 2 \/ log_index bytes = 3
                    \/ log_index bytes = 4) by lia.
    destruct Hcase as [-> | [-> | [-> | [-> | ->]]]]; simpl; tauto.
Qed.

(** From [1024^5] bytes on there is no unit to read. *)
Lemma formatBytes_unit_missing (bytes : Z) :
  k ^ 5 <= bytes ->
  exists amount, formatBytes bytes = amount ++ " undefined".
Proof.
  intros H5. unfold formatBytes.
  assert (Hk : 0 < k ^ 5) by reflexivity.
  destruct (bytes =? 0) eqn:Hz; [apply Z.eqb_eq in Hz; lia|].
  destruct (bytes <? 0) eqn:Hneg; [apply Z.ltb_lt in Hneg; lia|].
  destruct (log_index_spec (bytes := bytes)) as (Hi0 & _ & Hhi); [lia|].
  assert (Hi5 : 5 <= log_index bytes).
  { destruct (Z_lt_le_dec (log_index bytes) 5) as [Hlt|]; [|assumption].
    assert (k ^ (log_index bytes + 1) <= k ^ 5)
      by (apply Z.pow_le_mono_r; unfold k; lia).
    lia. }
  eexists. f_equal. f_equal. unfold JS.element_toString.
  replace (nth_error sizes (Z.to_nat (log_index bytes))) with (@None string);
    [reflexivity|].
  symmetry. apply nth_error_None. simpl. lia.
Qed.

Example formatBytes_0 : formatBytes 0 = "0 B".
Proof. reflexivity. Qed.

Example formatBytes_1536 : formatBytes 1536 = "1.5 KB".
Proof. vm_compute. reflexivity. Qed.

Example formatBytes_1048576 : formatBytes 1048576 = "1 MB".
Proof. vm_compute. reflexivity. Qed.

(** C1.  The unit index is not clamped to the list of units: from [1024^5]
    bytes on, the index is 5 or more and the unit read there is
    [undefined].  At two pebibytes, [2^51] bytes, the text is [2 undefined],
    not a text in one of the units B, KB, MB, GB, TB. *)
Theorem formatBytes_two_pebibytes :
  formatBytes 2251799813685248 = "2 undefined"
  /\ log_index 2251799813685248 = 5
  /\ nth_error sizes 5 = None.
Proof. vm_compute. repeat split; reflexivity. Qed.

(* ================================================================== *)
(** * Status *)

(** [Math_round] returns the integer that [rounds] describes. *)
Lemma Math_round_rounds (x : float) : rounds x (JS.Math_round x).
Proof.
  unfold rounds, JS.Math_round.
  destruct (Prim2SF x) as [s|s| |s m e]; try reflexivity.
  set (v := if s then Z.neg m else Z.pos m).
  eexists. split; [reflexivity|].
  destruct (Z.leb_spec 0 e) as [He|He].
  - rewrite (Z.max_l 0 (- e)), (Z.max_r 0 e) by lia.
    change (2 ^ 0) with 1. lia.
  - rewrite (Z.max_r 0 (- e)), (Z.max_l 0 e) by lia.
    change (2 ^ 0) with 1.
    assert (HP : 0 < 2 ^ (- e)) by (apply Z.pow_pos_nonneg; lia).
    replace (2 ^ (1 - e)) with (2 * 2 ^ (- e))
      by (replace (1 - e) with (Z.succ (- e)) by lia;
          rewrite Z.pow_succ_r by lia; reflexivity).
    set (P := 2 ^ (- e)) in *.
    pose proof (Z.mul_div_le (2 * v + P) (2 * P) ltac:(lia)) as Hlo.
    pose proof (Z.mul_succ_div_gt (2 * v + P) (2 * P) ltac:(lia)) as Hhi.
    set (n := (2 * v + P) / (2 * P)) in *. nia.
Qed.

(** C2.  The status text of a download is [Ready], in green, exactly when
    the download is finished or its progress is at least 1.  Otherwise the
    tag is orange and its text is a number followed by a percent sign; the
    number is a hundred times the progress, rounded to the closest integer,
    the upper one of two as close: [NaN], [-Infinity] or [Infinity] when
    the product is, and the decimal digits of the integer, which are all
    written out for a safe integer. *)
Theorem getStatusTag_ready_iff (d : Download.t) :
  (value (getStatusTag d) = "Ready" <->
     Download.download_finished d = true
     \/ (1 <=? Download.progress d)%float = true)
  /\ (Download.download_finished d = true
      \/ (1 <=? Download.progress d)%float = true ->
      getStatusTag d = {| value := "Ready"; color := Green |})
  /\ (Download.download_finished d = false ->
      (1 <=? Download.progress d)%float = false ->
      color (getStatusTag d) = Orange
      /\ exists r,
           rounds (Download.progress d * 100)%float r
           /\ value (getStatusTag d) = JS.Number_toString r ++ "%"
           /\ match r with
              | JS.NaN => value (getStatusTag d) = "NaN%"
              | JS.Infinity negative =>
                  value (getStatusTag d)
                  = if negative then "-Infinity%" else "Infinity%"
              | JS.Integer n =>
                  Z.abs n < 2 ^ 53 ->
                  value (getStatusTag d)
                  = NilZero.string_of_int (Z.to_int n) ++ "%"
              end).
Proof.
  unfold getStatusTag.
  destruct (Download.download_finished d); cbn [orb value color].
  { repeat split; auto; discriminate. }
  destruct (1 <=? Download.progress d)%float; cbn [orb value color].
  { repeat split; auto; discriminate. }
  split; [|split].
  - split.
    + intros H. now apply percent_not_Ready in H.
    + intros [H|H]; discriminate.
  - intros [H|H]; discriminate.
  - intros _ _. split; [reflexivity|].
    exists (JS.Math_round (Download.progress d * 100)%float).
    split; [apply Math_round_rounds|]. split; [reflexivity|].
    destruct (JS.Math_round (Download.progress d * 100)%float)
      as [|[|]|n]; try reflexivity.
    intros Hn. unfold JS.Number_toString.
    apply Z.ltb_lt in Hn. now rewrite Hn.
Qed.

(** A web download at progress 0.375: the product is 37.5, of the two
    integers as close the upper one is 38. *)
Lemma getStatusTag_ready_iff_witness :
  Download.download_finished tagged_manual = false
  /\ (1 <=? Download.progress tagged_manual)%float = false
  /\ getStatusTag tagged_manual = {| value := "38%"; color := Orange |}.
Proof.
  split; [reflexivity|]. split; [reflexivity|].
  destruct (getStatusTag_ready_iff tagged_manual) as (_ & _ & H).
  destruct (H eq_refl eq_refl) as (Hc & r & Hr & _ & Hv).
  unfold rounds in Hr.
  change (Prim2SF (Download.progress tagged_manual * 100)%float)
    with (S754_finite false 5277655813324800 (-47)) in Hr.
  cbv beta iota zeta in Hr. destruct Hr as (n & -> & Hlo & Hhi).
  change (Z.max 0 (- -47)) with 47 in Hlo, Hhi.
  change (Z.max 0 (-47)) with 0 in Hlo, Hhi.
  assert (n = 38) as -> by lia.
  specialize (Hv eq_refl).
  destruct (getStatusTag tagged_manual) as [text c].
  simpl in Hc, Hv. now rewrite Hc, Hv.
Defined.

Example status_of_ubuntu :
  getStatusTag (Download.make (Torrent.base ubuntu) None torrent)
  = {| value := "Ready"; color := Green |}.
Proof. vm_compute. reflexivity. Qed.

Example status_of_manual :
  value (getStatusTag (Download.make manual None webdl)) = "38%".
Proof. vm_compute. reflexivity. Qed.

(** A progress of 0.995 is not 1: the download is not ready, and its
    text is the rounded 99.5. *)
Example status_of_almost :
  value (getStatusTag
           (Download.make (sample_base 8 "almost" 10 0.995 false "2024-01-01")
              None webdl))
  = "100%".
Proof. vm_compute. reflexivity. Qed.

(** A negative progress is shown as it is; beyond the safe integers the
    digits are the shortest that read back as the number. *)
Example status_of_runaway :
  value (getStatusTag
           (Download.make
              (sample_base 9 "runaway" 10 (-1152921504606846976) false
                 "2024-01-01")
              None webdl))
  = "-115292150460684700000%".
Proof. vm_compute. reflexivity. Qed.

Example status_of_nan :
  value (getStatusTag
           (Download.make (sample_base 10 "nan" 10 nan false "2024-01-01")
              None webdl))
  = "NaN%".
Proof. vm_compute. reflexivity. Qed.

(* ================================================================== *)
(** * Rows *)

Section Rows.

Variable View : Type.
Variable api : Api.t.

Lemma skipn_length_app {A : Type} (l new : list A) :
  skipn (List.length l) (l ++ new) = new.
Proof. induction l as [|x l IH]; [reflexivity | exact IH]. Qed.

(** What the handler of "Copy Download Link" adds to the log. *)
Lemma emitted_CopyDownloadLink (d : Download.t) (apiKey title : string)
    (destructive : bool) (shortcut : option (string * string))
    (w : World View) :
  exists rest,
    emitted (Action.make title destructive shortcut
               (onAction_CopyDownloadLink api d apiKey)) w
    = Toast Animated "Getting download link..." None
        :: LinkRequest apiKey (Download.type d) (Download.id d) :: rest
    /\ filter is_link_request rest = [].
Proof.
  unfold emitted, onAction_CopyDownloadLink, try_catch, bind, showToast,
    Clipboard_copy, emit, request. cbn [Action.onAction log view].
  destruct (Api.getDownloadLink api apiKey (Download.type d) (Download.id d));
    cbn [snd log view]; rewrite <- ?app_assoc, skipn_length_app;
    eexists; split; reflexivity.
Qed.

(** The handlers of the two other actions request no link. *)
Lemma emitted_refresh (onRefresh : View -> View) (title : string)
    (destructive : bool) (shortcut : option (string * string))
    (w : World View) :
  emitted (Action.make title destructive shortcut (call_onRefresh onRefresh))
    w
  = [RefreshCall].
Proof.
  unfold emitted, call_onRefresh. cbn [Action.onAction snd log].
  apply skipn_length_app.
Qed.

Lemma emitted_DeleteDownload (d : Download.t) (apiKey title : string)
    (onRefresh : View -> View) (destructive : bool)
    (shortcut : option (string * string)) (w : World View) :
  filter is_link_request
    (emitted (Action.make title destructive shortcut
                (onAction_DeleteDownload api d apiKey onRefresh)) w)
  = [].
Proof.
  unfold emitted, onAction_DeleteDownload, try_catch, bind, showToast, emit,
    request, call_onRefresh. cbn [Action.onAction log view].
  destruct (Api.deleteDownload api apiKey (Download.type d) (Download.id d));
    cbn [snd log view]; rewrite <- ?app_assoc, skipn_length_app;
    reflexivity.
Qed.

(** C7.  The row of a download offers the retrieval of the link exactly
    when the download is finished or its progress is at least 1, which is
    exactly when its status text is [Ready].  By title: "Copy Download
    Link" is among the actions under this condition and no other, and the
    row of any other download has the two remaining actions and no third.
    By what the actions do: some action of the row sends a request for a
    download link when it is run under this condition and no other; the
    action titled "Copy Download Link" has the handler
    [onAction_CopyDownloadLink] and sends one request, for the link of the
    download of the row; an action with another title sends none. *)
Theorem copy_link_offered_iff_ready (d : Download.t) (apiKey : string)
    (onRefresh : View -> View) :
  let row := DownloadListItem api d apiKey onRefresh in
  let titles := action_titles row in
  (In "Copy Download Link" titles <->
     Download.download_finished d = true
     \/ (1 <=? Download.progress d)%float = true)
  /\ (In "Copy Download Link" titles <-> value (getStatusTag d) = "Ready")
  /\ titles =
       ((if Download.download_finished d || (1 <=? Download.progress d)%float
         then ["Copy Download Link"] else [])
          ++ ["Refresh All Downloads"; "Delete Download"])%list
  /\ (forall w,
        (exists a, In a (List.concat (ListItem.actions row))
                   /\ filter is_link_request (emitted a w) <> [])
        <-> Download.download_finished d = true
            \/ (1 <=? Download.progress d)%float = true)
  /\ (forall a w,
        In a (List.concat (ListItem.actions row)) ->
        (Action.title a = "Copy Download Link" ->
         Action.onAction a = onAction_CopyDownloadLink api d apiKey
         /\ filter is_link_request (emitted a w)
            = [LinkRequest apiKey (Download.type d) (Download.id d)])
        /\ (Action.title a <> "Copy Download Link" ->
            filter is_link_request (emitted a w) = [])).
Proof.
  intros row titles.
  assert (Hacts :
    forall a w, In a (List.concat (ListItem.actions row)) ->
      (Download.download_finished d || (1 <=? Download.progress d)%float
       = true
       /\ Action.title a = "Copy Download Link"
       /\ Action.onAction a = onAction_CopyDownloadLink api d apiKey
       /\ filter is_link_request (emitted a w)
          = [LinkRequest apiKey (Download.type d) (Download.id d)])
      \/ (Action.title a <> "Copy Download Link"
          /\ filter is_link_request (emitted a w) = [])).
  { intros a w Hin. subst row. unfold DownloadListItem in Hin.
    cbn [ListItem.actions] in Hin.
    destruct (Download.download_finished d
              || (1 <=? Download.progress d)%float);
      simpl in Hin;
      repeat (destruct Hin as [<-|Hin]); try contradiction.
    - left. split; [reflexivity|]. split; [reflexivity|].
      split; [reflexivity|].
      destruct (emitted_CopyDownloadLink d apiKey "Copy Download Link"
                  false None w) as (rest & -> & Hrest).
      simpl. now rewrite Hrest.
    - right. split; [discriminate|]. now rewrite emitted_refresh.
    - right. split; [discriminate|]. apply emitted_DeleteDownload.
    - right. split; [discriminate|]. now rewrite emitted_refresh.
    - right. split; [discriminate|]. apply emitted_DeleteDownload. }
  assert (Htitles :
    titles =
      ((if Download.download_finished d || (1 <=? Download.progress d)%float
        then ["Copy Download Link"] else [])
         ++ ["Refresh All Downloads"; "Delete Download"])%list).
  { subst titles row. unfold action_titles, DownloadListItem.
    cbn [ListItem.actions].
    now destruct (Download.download_finished d
                  || (1 <=? Download.progress d)%float). }
  assert (Hready :
    In "Copy Download Link" titles <->
    Download.download_finished d || (1 <=? Download.progress d)%float
    = true).
  { rewrite Htitles.
    destruct (Download.download_finished d
              || (1 <=? Download.progress d)%float); simpl.
    - tauto.
    - split; [intros [H|[H|[]]]; discriminate | discriminate]. }
  split; [now rewrite Hready, orb_true_iff|].
  split.
  { rewrite Hready. unfold getStatusTag.
    destruct (Download.download_finished d
              || (1 <=? Download.progress d)%float); cbn [value].
    - tauto.
    - split; [discriminate|]. intros H. now apply percent_not_Ready in H. }
  split; [exact Htitles|]. split.
  - intros w. rewrite <- orb_true_iff. split.
    + intros (a & Hin & Hne).
      destruct (Hacts a w Hin) as [(Hr & _)|(_ & Hnone)];
        [exact Hr | contradiction].
    + intros Hr.
      exists (Action.make "Copy Download Link" false None
                (onAction_CopyDownloadLink api d apiKey)).
      split.
      * subst row. unfold DownloadListItem. cbn [ListItem.actions].
        rewrite Hr. now left.
      * destruct (emitted_CopyDownloadLink d apiKey "Copy Download Link"
                    false None w) as (rest & -> & Hrest).
        simpl. now rewrite Hrest.
  - intros a w Hin.
    destruct (Hacts a w Hin) as [(_ & Ht & Hh & He)|(Ht & He)].
    + split; [auto | intros Hn; contradiction].
    + split; [intros H; contradiction | auto].
Qed.

(** X12.  The handler of "Copy Download Link" emits the pending
    notification and sends the request for the link of this download; then
    it writes the link to the clipboard and emits the success notification,
    or, the request failing, emits the failure notification with the message
    of the error and writes nothing.  Either way it settles without an
    error and leaves the state of the view alone. *)
Lemma onAction_CopyDownloadLink_outcomes (d : Download.t) (apiKey : string)
    (w : World View) :
  let pending := Toast Animated "Getting download link..." None in
  let sent := LinkRequest apiKey (Download.type d) (Download.id d) in
  onAction_CopyDownloadLink api d apiKey w
  = (JS.Fulfilled tt,
     {| log :=
          (log w ++
             match Api.getDownloadLink api apiKey
                     (Download.type d) (Download.id d) with
             | JS.Fulfilled link =>
                 [pending; sent; ClipboardWrite link;
                  Toast Success "Download link copied!" None]
             | JS.Rejected e =>
                 [pending; sent;
                  Toast Failure "Failed to get download link"
                    (Some (message_or_unknown e))]
             end)%list;
        view := view w |}).
Proof.
  intros pending sent.
  unfold onAction_CopyDownloadLink, try_catch, bind, showToast,
    Clipboard_copy, emit, request.
  cbn [log view].
  destruct (Api.getDownloadLink api apiKey (Download.type d) (Download.id d));
    cbn [log view]; rewrite <- ?app_assoc; reflexivity.
Qed.

(** C8.  The handler of "Delete Download" emits the pending notification,
    then sends the delete request for the type and id of the download.  If
    the request succeeds it emits the success notification and calls the
    refresh callback.  If the request fails it emits the failure
    notification with the message of the error and does not call the
    callback: the state held by the view is the one before. *)
Theorem onAction_DeleteDownload_outcomes (d : Download.t) (apiKey : string)
    (onRefresh : View -> View) (w : World View) :
  let pending := Toast Animated "Deleting download..." None in
  let sent := DeleteRequest apiKey (Download.type d) (Download.id d) in
  match Api.deleteDownload api apiKey (Download.type d) (Download.id d) with
  | JS.Fulfilled _ =>
      onAction_DeleteDownload api d apiKey onRefresh w
      = (JS.Fulfilled tt,
         {| log := (log w ++ [pending; sent;
                              Toast Success "Download deleted" None;
                              RefreshCall])%list;
            view := onRefresh (view w) |})
  | JS.Rejected (JS.Error message) =>
      onAction_DeleteDownload api d apiKey onRefresh w
      = (JS.Fulfilled tt,
         {| log := (log w ++ [pending; sent;
                              Toast Failure "Failed to delete download"
                                (Some message)])%list;
            view := view w |})
  | JS.Rejected JS.NotAnError =>
      onAction_DeleteDownload api d apiKey onRefresh w
      = (JS.Fulfilled tt,
         {| log := (log w ++ [pending; sent;
                              Toast Failure "Failed to delete download"
                                (Some "Unknown error")])%list;
            view := view w |})
  end.
Proof.
  intros pending sent.
  unfold onAction_DeleteDownload, try_catch, bind, showToast, emit, request,
    call_onRefresh.
  cbn [log view].
  destruct (Api.deleteDownload api apiKey (Download.type d) (Download.id d))
    as [[]|[message|]]; cbn [log view message_or_unknown];
    rewrite <- ?app_assoc; reflexivity.
Qed.

End Rows.

(* ================================================================== *)
(** * Aggregation *)

Section AggregationFacts.

Variable Date_getTime : string -> option Z.

Local Abbreviation time d := (Date_getTime (Download.created_at d)).
Local Abbreviation cmp := (JS.SortCompare (by_created_at Date_getTime)).

Lemma cmp_dated (a b : Download.t) (ta tb : Z) :
  time a = Some ta -> time b = Some tb -> cmp a b = tb - ta.
Proof.
  intros Ha Hb. unfold JS.SortCompare, by_created_at. now rewrite Ha, Hb.
Qed.

Lemma cmp_undated_l (a b : Download.t) : time a = None -> cmp a b = 0.
Proof.
  intros Ha. unfold JS.SortCompare, by_created_at. rewrite Ha.
  now destruct (time b).
Qed.

Lemma cmp_undated_r (a b : Download.t) : time b = None -> cmp a b = 0.
Proof.
  intros Hb. unfold JS.SortCompare, by_created_at. now rewrite Hb.
Qed.

Lemma dated_time (d : Download.t) :
  dated Date_getTime d -> exists t, time d = Some t.
Proof.
  unfold dated. destruct (time d) as [t|]; [now exists t | congruence].
Qed.

Local Abbreviation before := (JS.before (by_created_at Date_getTime)).

(** Among dated downloads the comparison follows the recency. *)
Lemma before_recency (x y : Download.t) :
  dated Date_getTime x -> dated Date_getTime y ->
  before x y = (recency Date_getTime x <? recency Date_getTime y).
Proof.
  intros [tx Hx]%dated_time [ty Hy]%dated_time.
  unfold JS.before, recency. rewrite (cmp_dated x y Hx Hy), Hx, Hy.
  destruct (Z.ltb_spec (ty - tx) 0), (Z.ltb_spec (- tx) (- ty));
    try reflexivity; lia.
Qed.

Lemma precedes_recency (x y : Download.t) :
  dated Date_getTime x -> dated Date_getTime y ->
  precedes (by_created_at Date_getTime) x y
  <-> key_le (recency Date_getTime) x y.
Proof.
  intros [tx Hx]%dated_time [ty Hy]%dated_time.
  unfold precedes, key_le, recency.
  rewrite (cmp_dated x y Hx Hy), Hx, Hy. lia.
Qed.

Lemma sort_dated (l : list Download.t) :
  Forall (dated Date_getTime) l ->
  Forall (dated Date_getTime) (JS.Array_sort (by_created_at Date_getTime) l).
Proof.
  apply Permutation_Forall, Permutation_sym, sort_perm.
Qed.

(** Dated downloads come out sorted, the most recent first. *)
Lemma sort_by_created_at_sorted (l : list Download.t) :
  Forall (dated Date_getTime) l ->
  StronglySorted (precedes (by_created_at Date_getTime))
    (JS.Array_sort (by_created_at Date_getTime) l).
Proof.
  intros Hd.
  destruct (@sort_by_key _ (by_created_at Date_getTime)
              (recency Date_getTime) (dated Date_getTime)
              before_recency l Hd) as [Hs _].
  pose proof (sort_dated Hd) as Hd'. rewrite Forall_forall in Hd'.
  apply (strongly_sorted_weaken
           (R := key_le (recency Date_getTime))); [|exact Hs].
  intros x y Hx Hy. apply precedes_recency; auto.
Qed.

Lemma time_eqb_eq (s t : option Z) : time_eqb s t = true <-> s = t.
Proof.
  destruct s as [a|], t as [b|]; simpl; try (split; congruence).
  rewrite Z.eqb_eq. split; congruence.
Qed.

Lemma same_time_eq (t : option Z) (d : Download.t) :
  same_time Date_getTime t d = true <-> time d = t.
Proof. apply time_eqb_eq. Qed.

(** The dated downloads of one time value are those of one recency. *)
Lemma same_time_class (t : option Z) (m : list Download.t) :
  Forall (dated Date_getTime) m ->
  filter (same_time Date_getTime t) m
  = match t with
    | Some v => key_class (recency Date_getTime) Z.eqb (- v) m
    | None => []
    end.
Proof.
  induction 1 as [|x m Hx Hm IH].
  - now destruct t.
  - destruct (dated_time Hx) as [tx Htx].
    destruct t as [v|]; unfold key_class in *; simpl; rewrite IH.
    + unfold same_time, recency. rewrite Htx. simpl.
      destruct (Z.eqb_spec tx v), (Z.eqb_spec (- tx) (- v));
        try reflexivity; lia.
    + unfold same_time. rewrite Htx. reflexivity.
Qed.

(** Dated downloads of one time value keep their order. *)
Lemma sort_same_time (l : list Download.t) :
  Forall (dated Date_getTime) l ->
  forall t,
    filter (same_time Date_getTime t)
      (JS.Array_sort (by_created_at Date_getTime) l)
    = filter (same_time Date_getTime t) l.
Proof.
  intros Hd t.
  rewrite (same_time_class t (sort_dated Hd)), (same_time_class t Hd).
  destruct t as [v|]; [|reflexivity].
  apply (@sort_by_key _ (by_created_at Date_getTime)
           (recency Date_getTime) (dated Date_getTime)
           before_recency l Hd).
Qed.

(** So do those of one [created_at] text, which have one time value. *)
Lemma sort_same_string (l : list Download.t) :
  Forall (dated Date_getTime) l ->
  forall s,
    filter (fun d => String.eqb (Download.created_at d) s)
      (JS.Array_sort (by_created_at Date_getTime) l)
    = filter (fun d => String.eqb (Download.created_at d) s) l.
Proof.
  intros Hd s.
  assert (Hw : forall m : list Download.t,
            filter (fun d => String.eqb (Download.created_at d) s)
              (filter (same_time Date_getTime (Date_getTime s)) m)
            = filter (fun d => String.eqb (Download.created_at d) s) m).
  { intros m. apply filter_filter_weaker. intros x _ Hx.
    apply String.eqb_eq in Hx. apply same_time_eq. now rewrite Hx. }
  rewrite <- Hw, (sort_same_time Hd), Hw. reflexivity.
Qed.

(** Downloads that all compare equal are left as they are. *)
Lemma sort_all_ties (l : list Download.t) (t : option Z) :
  (forall d, In d l -> time d = t) ->
  JS.Array_sort (by_created_at Date_getTime) l = l.
Proof.
  intros Hall.
  assert (Hb : forall x y, time x = t -> time y = t ->
                 before x y = ((fun _ : Download.t => 0) x <? 0)).
  { intros x y Hx Hy. unfold JS.before. destruct t as [v|].
    - rewrite (cmp_dated x y Hx Hy). now rewrite Z.sub_diag.
    - now rewrite (cmp_undated_l x y Hx). }
  destruct (@sort_by_key _ (by_created_at Date_getTime)
              (fun _ => 0) (fun d => time d = t) Hb l) as [_ Hc].
  { apply Forall_forall. exact Hall. }
  specialize (Hc 0). unfold key_class in Hc.
  assert (Hid : forall m : list Download.t,
             filter (fun _ : Download.t => true) m = m).
  { induction m as [|x m IH]; simpl; [reflexivity | now rewrite IH]. }
  change (filter (fun _ : Download.t => true)
            (JS.Array_sort (by_created_at Date_getTime) l)
          = filter (fun _ : Download.t => true) l) in Hc.
  now rewrite !Hid in Hc.
Qed.

Variable api : Api.t.
Variable apiKey : string.

Local Abbreviation torrents_fetch :=
  (Api.fetchDownloads_Torrent api apiKey "torrents").
Local Abbreviation web_fetch :=
  (Api.fetchDownloads_BaseDownload api apiKey "webdl").
Local Abbreviation usenet_fetch :=
  (Api.fetchDownloads_BaseDownload api apiKey "usenet").

Lemma fetchAllDownloads_fulfilled (ts : list Torrent.t)
    (ws us : list BaseDownload.t) :
  torrents_fetch = JS.Fulfilled ts ->
  web_fetch = JS.Fulfilled ws ->
  usenet_fetch = JS.Fulfilled us ->
  fetchAllDownloads Date_getTime api apiKey
  = JS.Fulfilled
      (JS.Array_sort (by_created_at Date_getTime) (allDownloads ts ws us)).
Proof. intros Ht Hw Hu. unfold fetchAllDownloads. now rewrite Ht, Hw, Hu. Qed.

Lemma fetchAllDownloads_inv (l : list Download.t) :
  fetchAllDownloads Date_getTime api apiKey = JS.Fulfilled l ->
  exists ts ws us,
    torrents_fetch = JS.Fulfilled ts /\ web_fetch = JS.Fulfilled ws
    /\ usenet_fetch = JS.Fulfilled us
    /\ l = JS.Array_sort (by_created_at Date_getTime) (allDownloads ts ws us).
Proof.
  unfold fetchAllDownloads.
  destruct torrents_fetch as [ts|], web_fetch as [ws|], usenet_fetch as [us|];
    simpl; try discriminate.
  intros H. injection H as <-. now exists ts, ws, us.
Qed.

(** C5.  The aggregation is all or nothing: it returns a list exactly when
    the three fetches succeed, and then the sorted concatenation; when one
    of them fails it fails, with the reason one of the failed fetches gave,
    and returns no list. *)
Theorem fetchAllDownloads_all_or_nothing :
  ((exists l, fetchAllDownloads Date_getTime api apiKey = JS.Fulfilled l) <->
     (exists ts ws us,
        torrents_fetch = JS.Fulfilled ts /\ web_fetch = JS.Fulfilled ws
        /\ usenet_fetch = JS.Fulfilled us))
  /\ (forall e,
        torrents_fetch = JS.Rejected e \/ web_fetch = JS.Rejected e
        \/ usenet_fetch = JS.Rejected e ->
        exists e',
          fetchAllDownloads Date_getTime api apiKey = JS.Rejected e'
          /\ (torrents_fetch = JS.Rejected e' \/ web_fetch = JS.Rejected e'
              \/ usenet_fetch = JS.Rejected e')).
Proof.
  split.
  - split.
    + intros [l Hl]. apply fetchAllDownloads_inv in Hl.
      destruct Hl as (ts & ws & us & Ht & Hw & Hu & _). now exists ts, ws, us.
    + intros (ts & ws & us & Ht & Hw & Hu).
      eexists. apply fetchAllDownloads_fulfilled; eassumption.
  - intros e He. unfold fetchAllDownloads.
    destruct torrents_fetch as [ts|e1]; [|exists e1; simpl; auto].
    destruct web_fetch as [ws|e2]; [|exists e2; simpl; auto].
    destruct usenet_fetch as [us|e3]; [|exists e3; simpl; auto].
    destruct He as [He|[He|He]]; discriminate.
Qed.

(** C3, for dated downloads.  When the three fetches succeed and every
    download of the result has a date that can be read, then of two
    downloads of the result with different time values the one with the
    larger time value stands at the smaller index. *)
Theorem fetchAllDownloads_most_recent_first (l : list Download.t) :
  fetchAllDownloads Date_getTime api apiKey = JS.Fulfilled l ->
  Forall (dated Date_getTime) l ->
  forall i j a b ta tb,
    nth_error l i = Some a -> nth_error l j = Some b ->
    time a = Some ta -> time b = Some tb ->
    tb < ta -> (i < j)%nat.
Proof.
  intros Hl Hd i j a b ta tb Hi Hj Ha Hb Hlt.
  apply fetchAllDownloads_inv in Hl.
  destruct Hl as (ts & ws & us & _ & _ & _ & ->).
  assert (Hs : StronglySorted (precedes (by_created_at Date_getTime))
                 (JS.Array_sort (by_created_at Date_getTime)
                    (allDownloads ts ws us))).
  { apply sort_by_created_at_sorted.
    apply (Permutation_Forall (sort_perm _ _) Hd). }
  destruct (Nat.lt_trichotomy i j) as [Hij|[Hij|Hij]]; [exact Hij| |].
  - subst j. rewrite Hi in Hj. injection Hj as <-. rewrite Ha in Hb.
    injection Hb as <-. lia.
  - pose proof (sorted_nth_error Hs Hij Hj Hi) as Hp.
    unfold precedes in Hp. rewrite (cmp_dated b a Hb Ha) in Hp. lia.
Qed.

(** The array the three collections are spread into is the tagged records
    in the order of the kinds. *)
Lemma allDownloads_in_kind_order (ts : list Torrent.t)
    (ws us : list BaseDownload.t) :
  allDownloads ts ws us = in_kind_order ts ws us.
Proof. reflexivity. Qed.

(** C4, for dated downloads.  When the three fetches succeed and every
    fetched record has a date that can be read, the aggregation is stable
    on ties.  The downloads of one time value, and the downloads of one
    [created_at] text, stand in the result in the order they have in the
    concatenation of the tagged torrents, web downloads and usenet
    downloads; and of two downloads with equal time values, the one that
    stands first in the concatenation stands first in the result. *)
Theorem fetchAllDownloads_stable (ts : list Torrent.t)
    (ws us : list BaseDownload.t) :
  torrents_fetch = JS.Fulfilled ts ->
  web_fetch = JS.Fulfilled ws ->
  usenet_fetch = JS.Fulfilled us ->
  Forall (dated Date_getTime) (in_kind_order ts ws us) ->
  exists l,
    fetchAllDownloads Date_getTime api apiKey = JS.Fulfilled l
    /\ (forall t, filter (same_time Date_getTime t) l
                  = filter (same_time Date_getTime t)
                      (in_kind_order ts ws us))
    /\ (forall s,
          filter (fun d => String.eqb (Download.created_at d) s) l
          = filter (fun d => String.eqb (Download.created_at d) s)
              (in_kind_order ts ws us))
    /\ (forall l1 a l2 b l3,
          in_kind_order ts ws us = (l1 ++ a :: l2 ++ b :: l3)%list ->
          time a = time b ->
          exists l1' l2' l3', l = (l1' ++ a :: l2' ++ b :: l3')%list).
Proof.
  intros Ht Hw Hu Hd. eexists. split.
  - apply fetchAllDownloads_fulfilled; eassumption.
  - rewrite allDownloads_in_kind_order.
    pose proof (sort_same_time Hd) as Hc.
    split; [exact Hc|]. split.
    + exact (sort_same_string Hd).
    + intros l1 a l2 b l3 Hl Hab.
      apply (@filter_keeps_order _ (same_time Date_getTime (time b))
               (in_kind_order ts ws us) _ (Hc (time b)) l1 a l2 b l3 Hl);
        apply same_time_eq; auto.
Qed.

(** X6.  Among dated downloads the comparison orders by time value, and
    the sorted, stable arrangement is unique: a list of dated downloads that
    runs from the most recent to the oldest and keeps the downloads of each
    time value in the order of the input is the sorted list.  Whichever
    stable algorithm the engine runs, it returns this list. *)
Theorem sort_determined (l l' : list Download.t) :
  Forall (dated Date_getTime) l ->
  Forall (dated Date_getTime) l' ->
  StronglySorted (precedes (by_created_at Date_getTime)) l' ->
  (forall t, filter (same_time Date_getTime t) l'
             = filter (same_time Date_getTime t) l) ->
  l' = JS.Array_sort (by_created_at Date_getTime) l.
Proof.
  intros Hd Hd' Hs Hc.
  set (R := fun x y =>
              dated Date_getTime x /\ dated Date_getTime y /\ cmp x y <= 0).
  assert (Hweak : forall m, Forall (dated Date_getTime) m ->
            StronglySorted (precedes (by_created_at Date_getTime)) m ->
            StronglySorted R m).
  { induction m as [|x m IH]; intros Hm Hsm; [constructor|].
    inversion Hm as [|? ? Hx Hm']; inversion Hsm as [|? ? Hsm' Hall]; subst.
    constructor; [auto|].
    rewrite Forall_forall in Hm', Hall |- *.
    intros y Hy. repeat split; auto. now apply Hall. }
  apply (@sorted_classes_eq _ _ (fun d => time d) time_eqb R); unfold key_class.
  - apply time_eqb_eq.
  - intros x y (Hx & Hy & Hxy) (_ & _ & Hyx).
    destruct (dated_time Hx) as [tx Htx], (dated_time Hy) as [ty Hty].
    rewrite (cmp_dated x y Htx Hty) in Hxy.
    rewrite (cmp_dated y x Hty Htx) in Hyx.
    rewrite Htx, Hty. f_equal. lia.
  - now apply Hweak.
  - apply Hweak.
    + apply (Permutation_Forall (Permutation_sym (sort_perm _ _)) Hd).
    + now apply sort_by_created_at_sorted.
  - intros t.
    change (filter (same_time Date_getTime t) l'
            = filter (same_time Date_getTime t)
                (JS.Array_sort (by_created_at Date_getTime) l)).
    rewrite (sort_same_time Hd t).
    apply Hc.
Qed.

End AggregationFacts.

(* ================================================================== *)
(** * The view *)

Section ViewFacts.

Variable toLowerCase : string -> string.

Local Abbreviation visible items q :=
  (filteredDownloads toLowerCase (Some items) q).

Lemma filter_subsequence {A : Type} (p : A -> bool) (l : list A) :
  Subsequence (filter p l) l.
Proof.
  induction l as [|x l IH]; simpl.
  - constructor.
  - destruct (p x); now constructor.
Qed.

Lemma subsequence_refl {A : Type} (l : list A) : Subsequence l l.
Proof. induction l; now constructor. Qed.

Lemma filter_twice {A : Type} (p : A -> bool) (l : list A) :
  filter p (filter p l) = filter p l.
Proof.
  induction l as [|x l IH]; simpl; [reflexivity|].
  destruct (p x) eqn:Hx; simpl; [rewrite Hx; now f_equal | exact IH].
Qed.

(** C10.  While no result has arrived the list shown is empty, whatever the
    search text, the empty one included; once items are held, the empty
    search text shows them all. *)
Theorem filteredDownloads_absent (searchText : string) :
  filteredDownloads toLowerCase None searchText = []
  /\ filteredDownloads toLowerCase None "" = []
  /\ forall items, filteredDownloads toLowerCase (Some items) "" = items.
Proof. repeat split. Qed.

Hypothesis toLowerCase_empty : toLowerCase "" = "".

(** C6.  On the items held, the filter with the empty query returns the
    items; the result of a filter is a subsequence of the items, in their
    order; the lower-cased name of every item returned contains the
    lower-cased query; filtering the result again with the same query
    changes nothing. *)
Theorem filteredDownloads_laws (items : list Download.t) (q : string) :
  visible items "" = items
  /\ Subsequence (visible items q) items
  /\ Forall (fun d => exists a b,
                 toLowerCase (Download.name d) = a ++ toLowerCase q ++ b)
       (visible items q)
  /\ visible (visible items q) q = visible items q.
Proof.
  split; [reflexivity|].
  unfold filteredDownloads.
  destruct (Nat.eqb (String.length q) 0) eqn:Hq.
  - apply length_zero in Hq. subst q.
    split; [apply subsequence_refl|]. split; [|reflexivity].
    apply Forall_forall. intros d _.
    apply includes_spec. rewrite toLowerCase_empty. apply includes_empty.
  - split; [apply filter_subsequence|]. split; [|apply filter_twice].
    apply Forall_forall. intros d Hd.
    apply filter_In in Hd. now apply includes_spec.
Qed.

End ViewFacts.

Section FetchFailure.

Variable View : Type.
Variable Date_getTime : string -> option Z.
Variable api : Api.t.
Variable toLowerCase : string -> string.

(** C9.  When a fetch fails, whether the first one or a refresh, the error
    is set, the list held before is still held, the next rendering shows a
    failure notification with the message of the error, and it shows the
    rows it showed before. *)
Theorem failed_fetch_keeps_items (apiKey searchText : string)
    (s : AsyncState.t) (revalidate : View -> View) (w : World View)
    (e : JS.Thrown) :
  fetchAllDownloads Date_getTime api apiKey = JS.Rejected e ->
  let s' := CachedPromise.settle (CachedPromise.revalidate s)
              (fetchAllDownloads Date_getTime api apiKey) in
  AsyncState.error s' = Some e
  /\ AsyncState.data s' = AsyncState.data s
  /\ filteredDownloads toLowerCase (AsyncState.data s') searchText
     = filteredDownloads toLowerCase (AsyncState.data s) searchText
  /\ exists before after,
       fst (Command api toLowerCase apiKey searchText s revalidate w)
         = JS.Fulfilled before
       /\ Command api toLowerCase apiKey searchText s' revalidate w
          = (JS.Fulfilled after,
             {| log := (log w ++ [Toast Failure "Failed to fetch downloads"
                                    (message_of e)])%list;
                view := view w |})
       /\ ListView.children after = ListView.children before.
Proof.
  intros Hf s'. subst s'. rewrite Hf. cbn [CachedPromise.settle
    CachedPromise.revalidate AsyncState.error AsyncState.data].
  repeat split.
  unfold Command, bind, showToast, emit, ret.
  cbn [AsyncState.error AsyncState.data AsyncState.isLoading].
  destruct (AsyncState.error s); simpl; eexists; eexists;
    (split; [reflexivity|]); split; reflexivity.
Qed.

End FetchFailure.

(* ================================================================== *)
(** * The laws on sample data *)

(** The sample service: four dated downloads, the most recent first. *)
Lemma sample_fetch :
  fetchAllDownloads sample_getTime sample_service "key"
  = JS.Fulfilled sample_result.
Proof. vm_compute. reflexivity. Qed.

Lemma sample_dated : Forall (dated sample_getTime) sample_result.
Proof. repeat constructor; intros H; vm_compute in H; discriminate. Qed.

(** The web download of 3 January, at index 0, and the torrent of 1 January,
    at index 3. *)
Lemma fetchAllDownloads_most_recent_first_witness :
  fetchAllDownloads sample_getTime sample_service "key"
    = JS.Fulfilled sample_result
  /\ Forall (dated sample_getTime) sample_result
  /\ (0 < 3)%nat.
Proof.
  split; [exact sample_fetch|]. split; [exact sample_dated|].
  apply (@fetchAllDownloads_most_recent_first sample_getTime sample_service
           "key" sample_result sample_fetch sample_dated 0%nat 3%nat
           tagged_manual tagged_debian 1704240000000 1704067200000
           eq_refl eq_refl eq_refl eq_refl eq_refl).
Defined.

(** The two downloads of 2 January, a torrent and a usenet download, in the
    order of the concatenation. *)
Lemma fetchAllDownloads_stable_witness :
  Forall (dated sample_getTime) (in_kind_order [debian; ubuntu] [manual]
                                   [archive])
  /\ exists l,
       fetchAllDownloads sample_getTime sample_service "key" = JS.Fulfilled l
       /\ filter (same_time sample_getTime (Some 1704153600000)) l
          = [tagged_ubuntu; tagged_archive].
Proof.
  assert (Hd : Forall (dated sample_getTime)
                 (in_kind_order [debian; ubuntu] [manual] [archive])).
  { repeat constructor; intros H; vm_compute in H; discriminate. }
  split; [exact Hd|].
  destruct (@fetchAllDownloads_stable sample_getTime sample_service "key"
              [debian; ubuntu] [manual] [archive] eq_refl eq_refl eq_refl Hd)
    as (l & Hl & Hc & _).
  exists l. split; [exact Hl|]. rewrite Hc. reflexivity.
Defined.

(** Seven downloads, the fourth of them undated: the usenet download of
    2 January comes out in front of the web download of 2 January, which
    is inserted after it and compared with the undated torrent only. *)
Example mixed_result :
  fetchAllDownloads sample_getTime mixed_service "key"
  = JS.Fulfilled [tagged_fedora; tagged_arch; tagged_manual; tagged_archive;
                  tagged_debian; tagged_undated; tagged_guide].
Proof. vm_compute. reflexivity. Qed.

(** So the aggregation is not stable on the ties of every result: the web
    download and the usenet download of 2 January leave the concatenation
    in one order and stand in the result in the other. *)
Lemma stable_fails_with_undated :
  ~ (forall (Date_getTime : string -> option Z) (api : Api.t)
            (apiKey : string) (ts : list Torrent.t)
            (ws us : list BaseDownload.t) (l : list Download.t),
        Api.fetchDownloads_Torrent api apiKey "torrents" = JS.Fulfilled ts ->
        Api.fetchDownloads_BaseDownload api apiKey "webdl"
          = JS.Fulfilled ws ->
        Api.fetchDownloads_BaseDownload api apiKey "usenet"
          = JS.Fulfilled us ->
        fetchAllDownloads Date_getTime api apiKey = JS.Fulfilled l ->
        forall s,
          filter (fun d => String.eqb (Download.created_at d) s) l
          = filter (fun d => String.eqb (Download.created_at d) s)
              (in_kind_order ts ws us)).
Proof.
  intros H.
  specialize (H sample_getTime mixed_service "key"
                [fedora; arch; debian; undated] [guide; manual] [archive]
                _ eq_refl eq_refl eq_refl mixed_result "2024-01-02").
  vm_compute in H. discriminate H.
Qed.

Example sample_tie :
  filter (same_time sample_getTime (Some 1704153600000)) sample_result
  = [tagged_ubuntu; tagged_archive].
Proof. vm_compute. reflexivity. Qed.

(** With an undated download between them, an older download stays in front
    of a more recent one: every comparison with the undated download gives
    [NaN], which the sort takes for a tie. *)
Example undated_result :
  fetchAllDownloads sample_getTime undated_service "key"
  = JS.Fulfilled [tagged_debian; tagged_undated; tagged_fedora].
Proof. vm_compute. reflexivity. Qed.

(** So the order by time value does not hold of every result: the torrent
    of 3 January stands at index 2, behind that of 1 January at index 0. *)
Lemma most_recent_first_fails_with_undated :
  ~ (forall (Date_getTime : string -> option Z) (api : Api.t)
            (apiKey : string) (l : list Download.t),
        fetchAllDownloads Date_getTime api apiKey = JS.Fulfilled l ->
        forall i j a b ta tb,
          nth_error l i = Some a -> nth_error l j = Some b ->
          Date_getTime (Download.created_at a) = Some ta ->
          Date_getTime (Download.created_at b) = Some tb ->
          tb < ta -> (i < j)%nat).
Proof.
  intros H.
  specialize (H sample_getTime undated_service "key" _ undated_result
                2%nat 0%nat tagged_fedora tagged_debian
                1704240000000 1704067200000
                eq_refl eq_refl eq_refl eq_refl eq_refl).
  lia.
Qed.

(** The row of a finished torrent: its action "Copy Download Link" sends
    the request for the link of this torrent. *)
Lemma copy_link_offered_iff_ready_witness :
  In (Action.make "Copy Download Link" false None
        (onAction_CopyDownloadLink sample_service tagged_fedora "key"))
     (List.concat
        (ListItem.actions
           (DownloadListItem sample_service tagged_fedora "key"
              CachedPromise.revalidate)))
  /\ filter is_link_request
       (emitted
          (Action.make "Copy Download Link" false None
             (onAction_CopyDownloadLink sample_service tagged_fedora "key"))
          {| log := []; view := CachedPromise.mount |})
     = [LinkRequest "key" torrent 4].
Proof.
  assert (Hin :
    In (Action.make "Copy Download Link" false None
          (onAction_CopyDownloadLink sample_service tagged_fedora "key"))
       (List.concat
          (ListItem.actions
             (DownloadListItem sample_service tagged_fedora "key"
                CachedPromise.revalidate)))) by (left; reflexivity).
  split; [exact Hin|].
  destruct (@copy_link_offered_iff_ready AsyncState.t sample_service
              tagged_fedora "key" CachedPromise.revalidate)
    as (_ & _ & _ & _ & H).
  destruct (H _ {| log := []; view := CachedPromise.mount |} Hin) as [Hc _].
  exact (proj2 (Hc eq_refl)).
Defined.

(** The query [UBUNTU] on the sample result, with the lower-casing of the
    letters A to Z. *)
Lemma filteredDownloads_laws_witness :
  ascii_toLowerCase "" = ""
  /\ filteredDownloads ascii_toLowerCase (Some sample_result) "UBUNTU"
     = [tagged_manual; tagged_ubuntu]
  /\ Subsequence
       (filteredDownloads ascii_toLowerCase (Some sample_result) "UBUNTU")
       sample_result.
Proof.
  split; [reflexivity|]. split; [vm_compute; reflexivity|].
  apply (@filteredDownloads_laws ascii_toLowerCase eq_refl sample_result
           "UBUNTU").
Defined.

(** A refresh that the service refuses, with the sample result held. *)
Lemma failed_fetch_keeps_items_witness :
  fetchAllDownloads sample_getTime failing_service "key"
    = JS.Rejected (JS.Error "401 Unauthorized")
  /\ AsyncState.data
       (CachedPromise.settle
          (CachedPromise.revalidate
             (AsyncState.make (Some sample_result) false None))
          (fetchAllDownloads sample_getTime failing_service "key"))
     = Some sample_result.
Proof.
  split; [reflexivity|].
  apply (@failed_fetch_keeps_items AsyncState.t sample_getTime failing_service
           ascii_toLowerCase "key" "iso"
           (AsyncState.make (Some sample_result) false None)
           CachedPromise.revalidate
           {| log := [];
              view := AsyncState.make (Some sample_result) false None |}
           (JS.Error "401 Unauthorized") eq_refl).
Defined.

(** The scenario of the specification: a torrent of 2 January at progress
    1, not finished, and a web download of 3 January at progress 0.4. *)
Example scenario :
  fetchAllDownloads sample_getTime scenario_service "key"
    = JS.Fulfilled [scenario_web; scenario_torrent]
  /\ value (getStatusTag scenario_torrent) = "Ready"
  /\ value (getStatusTag scenario_web) = "40%".
Proof. vm_compute. repeat split; reflexivity. Qed.

(* ================================================================== *)
(** * Further properties *)

(** ** The amount shown by [formatBytes] *)

(** X1.  For a count from one byte to four bytes below [1024^5] the text
    is an amount, a space and a unit, both fixed by the count.  The unit is
    the [i]-th of the five, where [1024^i] is the largest power of 1024
    not above the count.  The amount is the count divided by that power,
    in hundredths, the closest number of hundredths and the upper one of
    two as close; it lies between 1 and 1024, both included. *)
Theorem formatBytes_amount (bytes : Z) :
  1 <= bytes <= k ^ 5 - 4 ->
  exists (i hundredths : Z) (unit : string),
    formatBytes bytes = JS.parseFloat_toString hundredths ++ " " ++ unit
    /\ 0 <= i < 5
    /\ k ^ i <= bytes < k ^ (i + 1)
    /\ nth_error sizes (Z.to_nat i) = Some unit
    /\ (2 * hundredths - 1) * k ^ i <= 200 * bytes
       < (2 * hundredths + 1) * k ^ i
    /\ 100 <= hundredths <= 102400.
Proof.
  intros [Hb Hmax].
  destruct (log_index_spec (bytes := bytes) Hb) as (Hi0 & Hlo & Hhi).
  assert (Hi5 : log_index bytes < 5).
  { destruct (Z_lt_le_dec (log_index bytes) 5) as [|Hge]; [assumption|].
    assert (k ^ 5 <= k ^ log_index bytes)
      by (apply Z.pow_le_mono_r; unfold k; lia).
    lia. }
  set (i := log_index bytes) in *. set (d := k ^ i) in *.
  assert (Hd : 0 < d) by (apply Z.pow_pos_nonneg; unfold k; lia).
  assert (Hk : k ^ (i + 1) = 1024 * d).
  { unfold d. rewrite Z.pow_add_r by lia. unfold k at 2. lia. }
  assert (Hunit : exists unit, nth_error sizes (Z.to_nat i) = Some unit).
  { assert (Hcase : i = 0 \/ i = 1 \/ i = 2 \/ i = 3 \/ i = 4) by lia.
    destruct Hcase as [-> | [-> | [-> | [-> | ->]]]]; simpl; eauto. }
  destruct Hunit as [unit Hunit].
  exists i, (JS.toFixed_2 bytes d), unit.
  split.
  { unfold formatBytes.
    destruct (bytes =? 0) eqn:Hz; [apply Z.eqb_eq in Hz; lia|].
    destruct (bytes <? 0) eqn:Hneg; [apply Z.ltb_lt in Hneg; lia|].
    fold i. fold d. unfold JS.element_toString. now rewrite Hunit. }
  split; [lia|]. split; [lia|]. split; [exact Hunit|].
  unfold JS.toFixed_2.
  pose proof (Z.mul_div_le (200 * bytes + d) (2 * d) ltac:(lia)) as Hle.
  pose proof (Z.mul_succ_div_gt (200 * bytes + d) (2 * d) ltac:(lia)) as Hgt.
  set (h := (200 * bytes + d) / (2 * d)) in *.
  split; [nia|]. split.
  - apply Z.div_le_lower_bound; lia.
  - assert (h < 102401); [|lia].
    apply Z.div_lt_upper_bound; lia.
Qed.

(** 1536 bytes: one and a half times 1024, shown in KB. *)
Lemma formatBytes_amount_witness :
  1 <= 1536 <= k ^ 5 - 4
  /\ exists (i hundredths : Z) (unit : string),
       formatBytes 1536 = JS.parseFloat_toString hundredths ++ " " ++ unit
       /\ 0 <= i < 5
       /\ k ^ i <= 1536 < k ^ (i + 1)
       /\ nth_error sizes (Z.to_nat i) = Some unit
       /\ (2 * hundredths - 1) * k ^ i <= 200 * 1536
          < (2 * hundredths + 1) * k ^ i
       /\ 100 <= hundredths <= 102400.
Proof.
  assert (H : 1 <= 1536 <= k ^ 5 - 4) by (split; discriminate).
  split; [exact H|]. exact (@formatBytes_amount 1536 H).
Defined.





(** ** What the aggregation returns *)

Section AggregationExtras.

Variable Date_getTime : string -> option Z.
Variable api : Api.t.
Variable apiKey : string.

Local Abbreviation time d := (Date_getTime (Download.created_at d)).
Local Abbreviation torrents_fetch :=
  (Api.fetchDownloads_Torrent api apiKey "torrents").
Local Abbreviation web_fetch :=
  (Api.fetchDownloads_BaseDownload api apiKey "webdl").
Local Abbreviation usenet_fetch :=
  (Api.fetchDownloads_BaseDownload api apiKey "usenet").

Lemma addType_length {T : Type} `{ExtendsBaseDownload T}
    (l : list T) (type : DownloadType) :
  List.length (addType l type) = List.length l.
Proof. apply length_map. Qed.

Lemma addType_In {T : Type} `{ExtendsBaseDownload T}
    (l : list T) (type : DownloadType) (d : Download.t) :
  In d (addType l type) <->
  exists x, In x l /\ d = Download.make (as_base x) (own_properties x) type.
Proof.
  unfold addType. rewrite in_map_iff.
  split; intros (x & H1 & H2); exists x; auto.
Qed.

(** X3.  When the three fetches succeed the result is a rearrangement of the
    tagged records: none is lost, none is added, and their number is the sum
    of the sizes of the three collections. *)
Theorem fetchAllDownloads_permutation (ts : list Torrent.t)
    (ws us : list BaseDownload.t) :
  torrents_fetch = JS.Fulfilled ts ->
  web_fetch = JS.Fulfilled ws ->
  usenet_fetch = JS.Fulfilled us ->
  exists l,
    fetchAllDownloads Date_getTime api apiKey = JS.Fulfilled l
    /\ Permutation l (allDownloads ts ws us)
    /\ List.length l
       = (List.length ts + List.length ws + List.length us)%nat.
Proof.
  intros Ht Hw Hu. eexists. split; [|split].
  - apply fetchAllDownloads_fulfilled; eassumption.
  - apply sort_perm.
  - rewrite (Permutation_length (sort_perm _ _)).
    unfold allDownloads. rewrite !length_app, !addType_length. lia.
Qed.

(** X4.  The records of the result are the fetched records, each tagged
    with the type of the collection it was fetched from; a torrent keeps its
    hash and its speed. *)
Theorem fetchAllDownloads_provenance (ts : list Torrent.t)
    (ws us : list BaseDownload.t) (l : list Download.t) :
  torrents_fetch = JS.Fulfilled ts ->
  web_fetch = JS.Fulfilled ws ->
  usenet_fetch = JS.Fulfilled us ->
  fetchAllDownloads Date_getTime api apiKey = JS.Fulfilled l ->
  forall d,
    In d l <->
    (exists t, In t ts
       /\ d = Download.make (Torrent.base t)
                (Some (Torrent.hash t, Torrent.download_speed t)) torrent)
    \/ (exists b, In b ws /\ d = Download.make b None webdl)
    \/ (exists b, In b us /\ d = Download.make b None usenet).
Proof.
  intros Ht Hw Hu Hl d.
  rewrite (fetchAllDownloads_fulfilled Date_getTime api apiKey Ht Hw Hu) in Hl.
  injection Hl as <-.
  assert (Hp : In d (JS.Array_sort (by_created_at Date_getTime)
                       (allDownloads ts ws us))
               <-> In d (allDownloads ts ws us)).
  { split; apply Permutation_in;
      [apply sort_perm | apply Permutation_sym, sort_perm]. }
  rewrite Hp. unfold allDownloads. rewrite !in_app_iff, !addType_In.
  reflexivity.
Qed.

(** X5.  When all the records have one time value, or none has a date that
    can be read, the result is the concatenation of the tagged torrents, web
    downloads and usenet downloads as fetched. *)
Theorem fetchAllDownloads_all_ties (ts : list Torrent.t)
    (ws us : list BaseDownload.t) (t : option Z) :
  torrents_fetch = JS.Fulfilled ts ->
  web_fetch = JS.Fulfilled ws ->
  usenet_fetch = JS.Fulfilled us ->
  (forall d, In d (allDownloads ts ws us) -> time d = t) ->
  fetchAllDownloads Date_getTime api apiKey
  = JS.Fulfilled (allDownloads ts ws us).
Proof.
  intros Ht Hw Hu Hall.
  rewrite (fetchAllDownloads_fulfilled Date_getTime api apiKey Ht Hw Hu).
  f_equal. exact (@sort_all_ties Date_getTime _ t Hall).
Qed.

End AggregationExtras.

Lemma fetchAllDownloads_permutation_witness :
  exists l,
    fetchAllDownloads sample_getTime sample_service "key" = JS.Fulfilled l
    /\ List.length l = 4%nat.
Proof.
  destruct (@fetchAllDownloads_permutation sample_getTime sample_service "key"
              [debian; ubuntu] [manual] [archive] eq_refl eq_refl eq_refl)
    as (l & Hl & _ & Hn).
  exists l. split; [exact Hl | exact Hn].
Defined.

Lemma fetchAllDownloads_provenance_witness :
  In tagged_archive sample_result.
Proof.
  apply (@fetchAllDownloads_provenance sample_getTime sample_service "key"
           [debian; ubuntu] [manual] [archive] sample_result
           eq_refl eq_refl eq_refl sample_fetch tagged_archive).
  right. right. exists archive. split; [now left | reflexivity].
Defined.

Lemma fetchAllDownloads_all_ties_witness :
  fetchAllDownloads sample_getTime tie_service "key"
  = JS.Fulfilled [tagged_ubuntu; tagged_archive].
Proof.
  apply (@fetchAllDownloads_all_ties sample_getTime tie_service "key"
           [ubuntu] [] [archive] (Some 1704153600000)
           eq_refl eq_refl eq_refl).
  intros d [<-|[<-|[]]]; reflexivity.
Defined.

(** ** The filter *)

Lemma append_assoc (a b c : string) : (a ++ b) ++ c = a ++ b ++ c.
Proof. induction a as [|x a IH]; simpl; [reflexivity | now rewrite IH]. Qed.

(** A substring of a substring is a substring. *)
Lemma includes_trans (s t u : string) :
  JS.includes s t = true -> JS.includes t u = true -> JS.includes s u = true.
Proof.
  rewrite !includes_spec. intros (a & b & ->) (c & d & ->).
  exists (a ++ c), (d ++ b). now rewrite !append_assoc.
Qed.

Lemma filter_comm {A : Type} (p q : A -> bool) (l : list A) :
  filter p (filter q l) = filter q (filter p l).
Proof.
  induction l as [|x l IH]; simpl; [reflexivity|].
  destruct (q x) eqn:Hq, (p x) eqn:Hp; simpl; rewrite ?Hq, ?Hp, IH; reflexivity.
Qed.

Lemma subsequence_sorted {A : Type} (R : A -> A -> Prop) (l l' : list A) :
  Subsequence l l' -> StronglySorted R l' -> StronglySorted R l.
Proof.
  induction 1 as [|x l l' Hs IH|x l l' Hs IH]; intros Hl'.
  - constructor.
  - inversion Hl' as [|? ? Hsl Hall]; subst. constructor; [auto|].
    rewrite Forall_forall in *. intros y Hy. apply Hall.
    clear - Hs Hy. induction Hs; simpl in *; tauto.
  - inversion Hl'; auto.
Qed.

Section FilterExtras.

Variable toLowerCase : string -> string.

Local Abbreviation visible items q :=
  (filteredDownloads toLowerCase (Some items) q).
Local Abbreviation matches q :=
  (fun d => JS.includes (toLowerCase (Download.name d)) (toLowerCase q)).

Lemma visible_nonempty (items : list Download.t) (q : string) :
  q <> "" -> visible items q = filter (matches q) items.
Proof.
  intros Hq. unfold filteredDownloads.
  destruct (Nat.eqb (String.length q) 0) eqn:E; [|reflexivity].
  now apply length_zero in E.
Qed.

(** X7.  The filter returns exactly the matching items: an item of the list
    held is shown if and only if the query is empty or the lower-cased name
    contains the lower-cased query.  No match is left out. *)
Theorem filteredDownloads_exact (items : list Download.t) (q : string)
    (d : Download.t) :
  In d (visible items q) <->
  In d items
  /\ (q = ""
      \/ JS.includes (toLowerCase (Download.name d)) (toLowerCase q) = true).
Proof.
  unfold filteredDownloads.
  destruct (Nat.eqb (String.length q) 0) eqn:E.
  - apply length_zero in E. tauto.
  - rewrite filter_In. split; [tauto|].
    intros [Hd [Hq|Hm]]; [|tauto].
    apply length_zero in Hq. congruence.
Qed.

(** X8.  Two filters can be applied in either order. *)
Theorem filteredDownloads_commute (items : list Download.t) (q1 q2 : string) :
  visible (visible items q1) q2 = visible (visible items q2) q1.
Proof.
  unfold filteredDownloads.
  destruct (Nat.eqb (String.length q1) 0), (Nat.eqb (String.length q2) 0);
    try reflexivity.
  apply filter_comm.
Qed.

(** X9.  A longer query narrows the list: when the lower-cased query [q]
    occurs in the lower-cased query [q'], and [q'] is not empty, the items
    shown for [q'] are among those shown for [q], in their order, and
    filtering the items shown for [q] with [q'] gives the items shown for
    [q']. *)
Theorem filteredDownloads_narrow (items : list Download.t) (q q' : string) :
  q' <> "" ->
  JS.includes (toLowerCase q') (toLowerCase q) = true ->
  visible (visible items q) q' = visible items q'
  /\ Subsequence (visible items q') (visible items q).
Proof.
  intros Hq' Hinc.
  assert (Heq : visible (visible items q) q' = visible items q').
  { rewrite !(visible_nonempty _ Hq').
    unfold filteredDownloads.
    destruct (Nat.eqb (String.length q) 0); [reflexivity|].
    apply filter_filter_weaker.
    intros x _ Hx. exact (includes_trans _ _ _ Hx Hinc). }
  split; [exact Heq|].
  rewrite <- Heq, (visible_nonempty _ Hq'). apply filter_subsequence.
Qed.

End FilterExtras.

Lemma filteredDownloads_narrow_witness :
  filteredDownloads ascii_toLowerCase
    (Some (filteredDownloads ascii_toLowerCase (Some sample_result) "ubu"))
    "Ubuntu m"
  = [tagged_manual].
Proof.
  destruct (@filteredDownloads_narrow ascii_toLowerCase sample_result
              "ubu" "Ubuntu m" ltac:(discriminate) eq_refl) as [H _].
  rewrite H. reflexivity.
Defined.

(** ** The list shown *)

Section ShownExtras.

Variable Date_getTime : string -> option Z.
Variable api : Api.t.
Variable toLowerCase : string -> string.

Local Abbreviation time d := (Date_getTime (Download.created_at d)).

Lemma subsequence_Forall {A : Type} (P : A -> Prop) (l l' : list A) :
  Subsequence l l' -> Forall P l' -> Forall P l.
Proof.
  induction 1; intros Hl'; inversion Hl'; subst; auto.
Qed.

Lemma filteredDownloads_subsequence (items : list Download.t) (q : string) :
  Subsequence (filteredDownloads toLowerCase (Some items) q) items.
Proof.
  unfold filteredDownloads.
  destruct (Nat.eqb (String.length q) 0);
    [apply subsequence_refl | apply filter_subsequence].
Qed.

(** X10.  Filtering keeps the order of the aggregation: when the fetches
    succeed and every record is dated, then of two rows shown for a query,
    whatever the query, the one with the larger time value stands first. *)
Theorem filteredDownloads_most_recent_first (apiKey q : string)
    (l : list Download.t) :
  fetchAllDownloads Date_getTime api apiKey = JS.Fulfilled l ->
  Forall (dated Date_getTime) l ->
  forall i j a b ta tb,
    nth_error (filteredDownloads toLowerCase (Some l) q) i = Some a ->
    nth_error (filteredDownloads toLowerCase (Some l) q) j = Some b ->
    time a = Some ta -> time b = Some tb ->
    tb < ta -> (i < j)%nat.
Proof.
  intros Hl Hd i j a b ta tb Hi Hj Ha Hb Hlt.
  apply fetchAllDownloads_inv in Hl.
  destruct Hl as (ts & ws & us & _ & _ & _ & ->).
  assert (Hs : StronglySorted (precedes (by_created_at Date_getTime))
                 (filteredDownloads toLowerCase
                    (Some (JS.Array_sort (by_created_at Date_getTime)
                             (allDownloads ts ws us))) q)).
  { apply (subsequence_sorted (filteredDownloads_subsequence _ q)).
    apply sort_by_created_at_sorted.
    apply (Permutation_Forall (sort_perm _ _) Hd). }
  destruct (Nat.lt_trichotomy i j) as [Hij|[Hij|Hij]]; [exact Hij| |].
  - subst j. rewrite Hi in Hj. injection Hj as <-. rewrite Ha in Hb.
    injection Hb as <-. lia.
  - pose proof (sorted_nth_error Hs Hij Hj Hi) as Hp.
    unfold precedes in Hp.
    rewrite (cmp_dated Date_getTime b a Hb Ha) in Hp. lia.
Qed.

End ShownExtras.

Lemma filteredDownloads_most_recent_first_witness :
  fetchAllDownloads sample_getTime sample_service "key"
    = JS.Fulfilled sample_result
  /\ filteredDownloads ascii_toLowerCase (Some sample_result) "u"
     = [tagged_manual; tagged_ubuntu]
  /\ (0 < 1)%nat.
Proof.
  split; [exact sample_fetch|]. split; [reflexivity|].
  apply (@filteredDownloads_most_recent_first sample_getTime sample_service
           ascii_toLowerCase "key" "u" sample_result sample_fetch sample_dated
           0%nat 1%nat tagged_manual tagged_ubuntu
           1704240000000 1704153600000
           eq_refl eq_refl eq_refl eq_refl eq_refl).
Defined.

(** ** The keys of the rows *)

Lemma read_digits_digits (z : Z) : read_digits (JS.digits z) = Some z.
Proof.
  unfold read_digits, JS.digits.
  pose proof (DecimalZ.of_to z) as Hz.
  destruct (Z.to_int z) as [u|u] eqn:E.
  - destruct u as [|u|u|u|u|u|u|u|u|u|u];
      [rewrite NilZero.isi_posnil, <- Hz; reflexivity
      | rewrite NilZero.isi by discriminate; cbn [option_map];
        now rewrite Hz ..].
  - destruct u as [|u|u|u|u|u|u|u|u|u|u];
      [rewrite NilZero.isi_negnil, <- Hz; reflexivity
      | rewrite NilZero.isi by discriminate; cbn [option_map];
        now rewrite Hz ..].
Qed.

Lemma digits_inj (x y : Z) : JS.digits x = JS.digits y -> x = y.
Proof.
  intros H. apply (f_equal read_digits) in H.
  rewrite !read_digits_digits in H. congruence.
Qed.

(** A safe integer is printed with its own digits. *)
Lemma Number_toString_small (z : Z) :
  Z.abs z < 2 ^ 53 -> JS.Number_toString (JS.Integer z) = JS.digits z.
Proof.
  intros H. unfold JS.Number_toString.
  destruct (Z.abs z <? 2 ^ 53) eqn:E; [reflexivity|].
  apply Z.ltb_ge in E. lia.
Qed.

Lemma row_key_inj (d1 d2 : Download.t) :
  Z.abs (Download.id d1) < 2 ^ 53 ->
  Z.abs (Download.id d2) < 2 ^ 53 ->
  row_key d1 = row_key d2 -> identity d1 = identity d2.
Proof.
  intros H1 H2. unfold row_key, identity.
  rewrite (Number_toString_small _ H1), (Number_toString_small _ H2).
  destruct (Download.type d1), (Download.type d2); simpl;
    try discriminate; intros H; injection H as H;
    now rewrite (digits_inj _ _ H).
Qed.

Lemma NoDup_map_on {A B C : Type} (f : A -> B) (g : A -> C) (l : list A) :
  (forall x y, In x l -> In y l -> g x = g y -> f x = f y) ->
  NoDup (map f l) -> NoDup (map g l).
Proof.
  induction l as [|x l IH]; intros Hinj Hnd; simpl; [constructor|].
  inversion Hnd as [|? ? Hx Hl]; subst. constructor.
  - intros Hin. apply in_map_iff in Hin. destruct Hin as (y & Hy & Hyl).
    apply Hx. apply in_map_iff. exists y. split; [|exact Hyl].
    symmetry. apply Hinj; simpl; auto.
  - apply IH; [|exact Hl]. intros y z Hy Hz. apply Hinj; simpl; auto.
Qed.

Lemma subsequence_In {A : Type} (l l' : list A) (x : A) :
  Subsequence l l' -> In x l -> In x l'.
Proof. induction 1; simpl; tauto. Qed.

Lemma subsequence_map {A B : Type} (f : A -> B) (l l' : list A) :
  Subsequence l l' -> Subsequence (map f l) (map f l').
Proof. induction 1; simpl; now constructor. Qed.

Lemma subsequence_NoDup {A : Type} (l l' : list A) :
  Subsequence l l' -> NoDup l' -> NoDup l.
Proof.
  induction 1 as [|x l l' Hs IH|x l l' Hs IH]; intros Hnd.
  - constructor.
  - inversion Hnd; subst. constructor; auto.
    intros Hin. eauto using subsequence_In.
  - inversion Hnd; auto.
Qed.

Section KeyExtras.

Variable View : Type.
Variable api : Api.t.
Variable toLowerCase : string -> string.

(** X11.  The keys of the rows are distinct.  When the downloads held have
    distinct pairs of type and id, and ids that are safe integers, below
    [2^53] in absolute value, a rendering gives the rows shown, whatever
    the search text, the keys of their downloads, and no two rows the same
    key. *)
Theorem Command_keys_distinct (apiKey searchText : string)
    (state : AsyncState.t) (revalidate : View -> View) (w : World View)
    (items : list Download.t) :
  AsyncState.data state = Some items ->
  Forall (fun d => Z.abs (Download.id d) < 2 ^ 53) items ->
  NoDup (map identity items) ->
  exists v,
    fst (Command api toLowerCase apiKey searchText state revalidate w)
      = JS.Fulfilled v
    /\ map fst (ListView.children v)
       = map row_key (filteredDownloads toLowerCase (Some items) searchText)
    /\ NoDup (map fst (ListView.children v)).
Proof.
  intros Hdata Hids Hnd.
  pose proof (filteredDownloads_subsequence toLowerCase items searchText) as Hs.
  assert (Hk : NoDup (map row_key
                        (filteredDownloads toLowerCase (Some items)
                           searchText))).
  { apply (NoDup_map_on identity row_key).
    - rewrite Forall_forall in Hids. intros x y Hx Hy.
      apply row_key_inj; apply Hids; eauto using subsequence_In.
    - apply (subsequence_NoDup (subsequence_map identity Hs) Hnd). }
  unfold Command, bind, showToast, emit, ret. rewrite Hdata.
  destruct (AsyncState.error state); cbn [fst log view];
    eexists; (split; [reflexivity|]); cbn [ListView.children];
    rewrite map_map; cbn [fst]; (split; [reflexivity | exact Hk]).
Qed.

End KeyExtras.

Lemma Command_keys_distinct_witness :
  exists v,
    fst (Command sample_service ascii_toLowerCase "key" ""
           (AsyncState.make (Some sample_result) false None)
           CachedPromise.revalidate
           {| log := [];
              view := AsyncState.make (Some sample_result) false None |})
      = JS.Fulfilled v
    /\ map fst (ListView.children v)
       = ["webdl-1"; "torrent-1"; "usenet-7"; "torrent-2"].
Proof.
  destruct (@Command_keys_distinct AsyncState.t sample_service
              ascii_toLowerCase "key" ""
              (AsyncState.make (Some sample_result) false None)
              CachedPromise.revalidate
              {| log := [];
                 view := AsyncState.make (Some sample_result) false None |}
              sample_result eq_refl
              ltac:(repeat constructor) ltac:(repeat constructor; simpl;
                 intuition discriminate))
    as (v & Hv & Hkeys & _).
  exists v. split; [exact Hv|]. rewrite Hkeys. reflexivity.
Defined.

(** ** The actions of a row *)

Section ActionExtras.

Variable View : Type.
Variable api : Api.t.

(** X13.  Whatever action of the row of a download is run, it settles
    without an error escaping, it sends at most one request to the service,
    with the API key of the row and for the type and id of this download
    and no other, and it leaves the state of the view as it was or as the
    refresh callback makes it. *)
Theorem row_actions_concern_own_download (d : Download.t) (apiKey : string)
    (onRefresh : View -> View) (a : Action.t View) (w : World View) :
  In a (List.concat
          (ListItem.actions (DownloadListItem api d apiKey onRefresh))) ->
  exists new,
    fst (Action.onAction a w) = JS.Fulfilled tt
    /\ log (snd (Action.onAction a w)) = (log w ++ new)%list
    /\ Forall (concerns apiKey d) new
    /\ (List.length (filter is_request new) <= 1)%nat
    /\ (view (snd (Action.onAction a w)) = view w
        \/ view (snd (Action.onAction a w)) = onRefresh (view w)).
Proof.
  unfold DownloadListItem. cbn [ListItem.actions List.concat app].
  intros Hin.
  assert (Hcases :
            a = Action.make "Copy Download Link" false None
                  (onAction_CopyDownloadLink api d apiKey)
            \/ a = Action.make "Refresh All Downloads" false
                     (Some ("cmd", "r")) (call_onRefresh onRefresh)
            \/ a = Action.make "Delete Download" true (Some ("ctrl", "x"))
                     (onAction_DeleteDownload api d apiKey onRefresh)).
  { destruct (Download.download_finished d
              || (1 <=? Download.progress d)%float);
      simpl in Hin; intuition auto. }
  clear Hin. destruct Hcases as [-> | [-> | ->]]; cbn [Action.onAction].
  - unfold onAction_CopyDownloadLink, try_catch, bind, showToast,
      Clipboard_copy, emit, request. cbn [log view].
    destruct (Api.getDownloadLink api apiKey (Download.type d) (Download.id d));
      cbn [fst snd log view]; rewrite <- ?app_assoc; eexists;
      (split; [reflexivity|]); (split; [reflexivity|]);
      (split; [simpl; repeat constructor|]);
      (split; [simpl; lia | simpl; auto]).
  - unfold call_onRefresh. cbn [fst snd log view].
    exists [RefreshCall].
    split; [reflexivity|]. split; [reflexivity|].
    split; [repeat constructor|]. split; [simpl; lia | auto].
  - unfold onAction_DeleteDownload, try_catch, bind, showToast, emit,
      request, call_onRefresh. cbn [log view].
    destruct (Api.deleteDownload api apiKey (Download.type d) (Download.id d));
      cbn [fst snd log view]; rewrite <- ?app_assoc; eexists;
      (split; [reflexivity|]); (split; [reflexivity|]);
      (split; [simpl; repeat constructor|]);
      (split; [simpl; lia | simpl; auto]).
Qed.

End ActionExtras.

Lemma row_actions_concern_own_download_witness :
  exists new,
    log (snd (onAction_DeleteDownload failing_service tagged_ubuntu "key"
                CachedPromise.revalidate
                {| log := []; view := CachedPromise.mount |}))
    = new
    /\ Forall (concerns "key" tagged_ubuntu) new.
Proof.
  destruct (@row_actions_concern_own_download AsyncState.t failing_service
              tagged_ubuntu "key" CachedPromise.revalidate
              (Action.make "Delete Download" true (Some ("ctrl", "x"))
                 (onAction_DeleteDownload failing_service tagged_ubuntu "key"
                    CachedPromise.revalidate))
              {| log := []; view := CachedPromise.mount |}
              ltac:(simpl; auto))
    as (new & _ & Hlog & Hall & _).
  exists new. split; [exact Hlog | exact Hall].
Defined.

(** ** The sorted arrangement *)

Lemma sort_determined_witness :
  sample_result
  = JS.Array_sort (by_created_at sample_getTime)
      (allDownloads [debian; ubuntu] [manual] [archive]).
Proof.
  assert (Hd : Forall (dated sample_getTime)
                 (allDownloads [debian; ubuntu] [manual] [archive])).
  { repeat constructor; intros H; vm_compute in H; discriminate. }
  apply (@sort_determined sample_getTime
           (allDownloads [debian; ubuntu] [manual] [archive]) sample_result).
  - exact Hd.
  - exact sample_dated.
  - repeat constructor; unfold precedes; vm_compute; discriminate.
  - intros t.
    change sample_result
      with (JS.Array_sort (by_created_at sample_getTime)
              (allDownloads [debian; ubuntu] [manual] [archive])).
    exact (@sort_same_time sample_getTime _ Hd t).
Defined.
